(** * KeePassXC command line: line reader and FDO secrets authorization prompts

    A shallow embedding of
      - src/cli/LineReader.h               (LineReader, LineReaderGuard,
                                            SimpleLineReader, ReadlineLineReader)
      - src/fdosecrets/FdoSecretsPluginCLI.cpp
                                           (userAction, confirmDeleteEntries,
                                            requestEntriesRemove,
                                            requestEntriesUnlock)
      - src/cli/keepassxc-cli.cpp          (getPrompt, enterInteractiveMode)
    and the properties of the interactive authorization workflow stated over
    it.

    Conventions of the embedding.
      - A QString is a [string] of Latin-1 code units.
      - The standard input is the text that has not been read yet.
        Utils::STDIN and the plain reader's m_input are both streams on it
        and are taken to read from that one text; [in >> input],
        [readLine] and [atEnd] follow QTextStream on it. An input that is
        never closed and never answers a prompt is outside the model.
      - The standard input is a sequential device (a terminal, a pipe),
        on which QTextStream::atEnd() is false until a read has met the
        end of the file. The mark [eof] records that a read of the plain
        reader's m_input has done so. The text is there as a whole, with
        the end of the file behind it, so the first read of m_input
        meets it. The prompts read through Utils::STDIN (cli/Utils.cpp
        is not among the sources) and leave the mark as it is.
      - readline itself (the reading of characters, line editing, its
        history list, what rl_callback_read_char does) is outside the
        sources and is not modelled: of the readline backend the model has
        what LineReader.h does with the lines readline hands over. The
        activation of the notifier is modelled for the plain backend.
      - Utils::STDOUT and the reader's own output stream are one log of
        lines; a line is kept as the message that was written and its
        arguments, the interpolation done by QString::arg is not modelled.
      - Signals are recorded in the order they are emitted; the slots the
        session connects to them (keepassxc-cli.cpp) are not run.
      - C++ [int] results are in [Z]; the counters of the loops below never
        leave the range of [int] since a QStringList holds fewer than 2^31
        items.
      - Entry pointers are handles; two handles are the same entry exactly
        when they are equal. *)

From Stdlib Require Import ZArith Lia Ascii String List.
From stdpp Require Import base gmap strings list.
Import ListNotations.

Local Open Scope string_scope.
Local Open Scope Z_scope.

(** ** QString and QChar operations used by the prompts *)

Module QtText.

(** QChar::isSpace on Latin-1: the space, the controls 0x09..0x0D, NEL
    (0x85) and the no-break space (0xA0). *)
Definition isSpace (c : ascii) : bool :=
  let n := nat_of_ascii c in
  ((n =? 32) || ((9 <=? n) && (n <=? 13)) || (n =? 133) || (n =? 160))%nat.

(** QChar::toLower on Latin-1: A..Z and the accented capitals 0xC0..0xDE
    (the multiplication sign 0xD7 apart) move up by 0x20. *)
Definition toLowerChar (c : ascii) : ascii :=
  let n := nat_of_ascii c in
  if (((65 <=? n) && (n <=? 90)) ||
      ((192 <=? n) && (n <=? 222) && negb (n =? 215)))%nat
  then ascii_of_nat (n + 32)
  else c.

(** QString::toLower *)
Fixpoint toLower (s : string) : string :=
  match s with
  | EmptyString => EmptyString
  | String c r => String (toLowerChar c) (toLower r)
  end.

Fixpoint trimLeft (s : string) : string :=
  match s with
  | EmptyString => EmptyString
  | String c r => if isSpace c then trimLeft r else s
  end.

Fixpoint trimRight (s : string) : string :=
  match s with
  | EmptyString => EmptyString
  | String c r =>
      match trimRight r with
      | EmptyString => if isSpace c then EmptyString else String c EmptyString
      | r' => String c r'
      end
  end.

(** QString::trimmed: white space removed from both ends. *)
Definition trimmed (s : string) : string := trimRight (trimLeft s).

(** QString::split(sep) for a one-character separator; empty parts are
    kept (Qt::KeepEmptyParts is the default). *)
Fixpoint split (sep : ascii) (s : string) : list string :=
  match s with
  | EmptyString => [EmptyString]
  | String c r =>
      if Ascii.eqb c sep then EmptyString :: split sep r
      else match split sep r with
           | h :: t => String c h :: t
           | [] => [String c EmptyString]
           end
  end.

(** QStringList::join *)
Fixpoint join (sep : string) (l : list string) : string :=
  match l with
  | [] => EmptyString
  | [x] => x
  | x :: r => x +:+ sep +:+ join sep r
  end.

(** Strings made of white space only, and strings free of it. *)
Fixpoint allSpace (s : string) : bool :=
  match s with
  | EmptyString => true
  | String c r => isSpace c && allSpace r
  end.

Fixpoint noSpace (s : string) : bool :=
  match s with
  | EmptyString => true
  | String c r => negb (isSpace c) && noSpace r
  end.

End QtText.

(** ** QTextStream reads over the unread text *)

Module TextStream.
Import QtText.

(** The token part of [operator>>(QString&)]: characters up to the next
    white space, which is left in the stream. *)
Fixpoint scanWord (s : string) : string * string :=
  match s with
  | EmptyString => (EmptyString, EmptyString)
  | String c r =>
      if isSpace c then (EmptyString, s)
      else let (w, rest) := scanWord r in (String c w, rest)
  end.

(** [in >> input]: leading white space is skipped, then one word is read.
    At the end of the text the word is empty. *)
Definition readWord (s : string) : string * string :=
  scanWord (trimLeft s).

(** QTextStream::atEnd *)
Definition atEnd (s : string) : bool :=
  match s with
  | EmptyString => true
  | String _ _ => false
  end.

(** QTextStream::readLine: the characters up to the next line feed, which
    is consumed; a carriage return in front of the line feed, or as the
    last character of the text, is dropped too. *)
Fixpoint readLine (s : string) : string * string :=
  match s with
  | EmptyString => (EmptyString, EmptyString)
  | String c r =>
      if Ascii.eqb c "010" then (EmptyString, r)
      else if Ascii.eqb c "013" then
        match r with
        | EmptyString => (EmptyString, EmptyString)
        | String c' r' =>
            if Ascii.eqb c' "010" then (EmptyString, r')
            else let (l, rest) := readLine r in (String c l, rest)
        end
      else let (l, rest) := readLine r in (String c l, rest)
  end.

End TextStream.

(** ** The process: standard streams and the line reader object *)

(** Entry*: an entry handle. *)
Abbreviation Entry := nat (only parsing).

(** The part of FdoSecrets::DBusClient that the prompts display. The text
    [app], "%1 (PID: %2)" filled with these two, is kept as the record. *)
Record DBusClient := { client_name : string; client_pid : Z }.

(** The questions [userAction] is called with. *)
Inductive Message :=
| ChooseAction                (* "Choose action: %1" *)
| ReplaceReferences           (* "Replace references to entry? %1" *)
| AllowAccess (app : DBusClient) (entry : Entry)
                              (* "Allow %1 access to \"%2\" (username: %3)? %4" *)
| RememberAction (actionStr : string) (app : DBusClient) (warning : string).
                              (* "Do you want to remember this action (%1) ..." *)

(** What is written to the terminal. *)
Inductive Line :=
| Asked (message : Message) (availableActions : string)
| UnknownResponse (input availableActions : string)
| EntryHasReferences (entry : Entry) (count : nat)
| RequestingAccess (app : DBusClient)
| AccessItem (i : Z) (entry : Entry)
| RequestingRemoval (app : DBusClient) (permanent : bool) (name : string)
| RemovalItem (i : Z) (entry : Entry)
| Blank
| ReaderNewline
| ReaderPrompt (prompt : string).

(** The dynamic type of the LineReader. *)
Inductive Backend := Simple | Readline.

(** The signals of LineReader. *)
Inductive Signal :=
| readLine (command : string)
| finished.

Record Process := {
  backend : Backend;
  m_prompt : string;              (* the prompt text m_prompt refers to *)
  connections : nat;              (* slots attached to m_notifier.activated *)
  rl_linefunc : bool;             (* readline's line handler is installed *)
  history : list (option string); (* the lines handed to add_history *)
  emitted : list Signal;          (* signals emitted so far, oldest first *)
  stdin : string;                 (* text not read yet *)
  eof : bool;                     (* a read of m_input has met the end of the file *)
  stdout : list Line              (* lines written so far, oldest first *)
}.

Definition set_stdin (s : string) (p : Process) : Process :=
  {| backend := backend p; m_prompt := m_prompt p;
     connections := connections p; rl_linefunc := rl_linefunc p;
     history := history p; emitted := emitted p;
     stdin := s; eof := eof p; stdout := stdout p |}.

Definition set_eof (b : bool) (p : Process) : Process :=
  {| backend := backend p; m_prompt := m_prompt p;
     connections := connections p; rl_linefunc := rl_linefunc p;
     history := history p; emitted := emitted p;
     stdin := stdin p; eof := b; stdout := stdout p |}.

(** [out << line << Qt::endl] *)
Definition write (l : Line) (p : Process) : Process :=
  {| backend := backend p; m_prompt := m_prompt p;
     connections := connections p; rl_linefunc := rl_linefunc p;
     history := history p; emitted := emitted p;
     stdin := stdin p; eof := eof p; stdout := stdout p ++ [l] |}.

Definition set_connections (n : nat) (p : Process) : Process :=
  {| backend := backend p; m_prompt := m_prompt p;
     connections := n; rl_linefunc := rl_linefunc p;
     history := history p; emitted := emitted p;
     stdin := stdin p; eof := eof p; stdout := stdout p |}.

Definition set_rl_linefunc (b : bool) (p : Process) : Process :=
  {| backend := backend p; m_prompt := m_prompt p;
     connections := connections p; rl_linefunc := b;
     history := history p; emitted := emitted p;
     stdin := stdin p; eof := eof p; stdout := stdout p |}.

(** [emit signal] *)
Definition emit (s : Signal) (p : Process) : Process :=
  {| backend := backend p; m_prompt := m_prompt p;
     connections := connections p; rl_linefunc := rl_linefunc p;
     history := history p; emitted := emitted p ++ [s];
     stdin := stdin p; eof := eof p; stdout := stdout p |}.

(** [add_history(line)], as the call that is made: the line is recorded.
    What readline makes of its history list afterwards is readline's. *)
Definition add_history (line : option string) (p : Process) : Process :=
  {| backend := backend p; m_prompt := m_prompt p;
     connections := connections p; rl_linefunc := rl_linefunc p;
     history := history p ++ [line]; emitted := emitted p;
     stdin := stdin p; eof := eof p; stdout := stdout p |}.

(** ** LineReader.h *)

Module LineReader.

(** [m_notifier.disconnect(this)]: QObject::disconnect(receiver) takes
    away the connections of the notifier's signals whose receiver is the
    reader. [restore] attaches its slots with the three-argument
    [connect(sender, signal, functor)], whose receiver is the sender, the
    notifier itself; so there is no connection for this call to take
    away, and the slots stay attached. *)
Definition disconnect (p : Process) : Process := p.

(** [connect(&m_notifier, &QSocketNotifier::activated, slot)]: one more
    slot runs on every activation. *)
Definition connect (p : Process) : Process :=
  set_connections (S (connections p)) p.

(** readline installs the line handler and displays the prompt. *)
Definition rl_callback_handler_install (p : Process) : Process :=
  write (ReaderPrompt (m_prompt p)) (set_rl_linefunc true p).

Definition rl_callback_handler_remove (p : Process) : Process :=
  set_rl_linefunc false p.

(** LineReader::pause, by backend. *)
Definition pause (p : Process) : Process :=
  match backend p with
  | Simple => disconnect (write ReaderNewline p)
  | Readline => rl_callback_handler_remove (disconnect p)
  end.

(** LineReader::restore, by backend. *)
Definition restore (p : Process) : Process :=
  match backend p with
  | Simple => connect (write (ReaderPrompt (m_prompt p)) p)
  | Readline => connect (rl_callback_handler_install p)
  end.

(** The constructors: SimpleLineReader(prompt) and
    ReadlineLineReader(prompt) end with [restore()]. *)
Definition create (b : Backend) (prompt input : string) : Process :=
  restore {| backend := b; m_prompt := prompt; connections := 0;
             rl_linefunc := false; history := []; emitted := [];
             stdin := input; eof := false; stdout := [] |}.

(** LineReaderGuard: [pause] when the scope is entered, [restore] when it
    is left, on every return path. *)
Definition LineReaderGuard {A} (body : Process -> A * Process)
    (p : Process) : A * Process :=
  let (r, p') := body (pause p) in (r, restore p').

End LineReader.

(** *** SimpleLineReader under the notifier *)

Module SimpleLineReader.
Import LineReader.

(** [m_input.atEnd()]: nothing is left to read and a read has met the
    end of the file. Before a read the stream does not know that the
    standard input is exhausted. *)
Definition m_input_atEnd (p : Process) : bool :=
  TextStream.atEnd (stdin p) && eof p.

(** [m_input.readLine()]: the read meets the end of the file behind the
    text. At the end of the text the line is the null QString, which is
    the empty string here. *)
Definition m_input_readLine (p : Process) : string * Process :=
  let (current, rest) := TextStream.readLine (stdin p) in
  (current, set_eof true (set_stdin rest p)).

(** The slot SimpleLineReader::restore attaches. *)
Definition slot (p : Process) : Process :=
  if m_input_atEnd p then emit finished (disconnect p)
  else
    let (current, p) := m_input_readLine p in
    write (ReaderPrompt (m_prompt p)) (emit (readLine current) p).

(** The notifier's [activated] signal: every slot that [restore] has
    attached runs once. *)
Definition activated (p : Process) : Process :=
  Nat.iter (connections p) slot p.

(** What can happen to a plain reader from outside. *)
Inductive Event := Activate | Pause | Restore.

Definition step (p : Process) (ev : Event) : Process :=
  match ev with
  | Activate => activated p
  | Pause => pause p
  | Restore => restore p
  end.

Definition run (evs : list Event) (p : Process) : Process :=
  fold_left step evs p.

End SimpleLineReader.

(** *** ReadlineLineReader's line handler *)

Module ReadlineLineReader.
Import LineReader.

(** ReadlineLineReader::handleLine; a null line is [None]. *)
Definition handleLine (line : option string) (p : Process) : Process :=
  let p := rl_callback_handler_remove p in
  match line with
  | None => emit finished (disconnect p)
  | Some l => rl_callback_handler_install (emit (readLine l) p)
  end.

(** ReadlineLineReader::s_readLine, the handler readline calls with a
    completed line, or with the null line at the end of the input. *)
Definition s_readLine (line : option string) (p : Process) : Process :=
  add_history line (handleLine line p).

(** The lines readline completes and hands to the handler, in turn. *)
Definition handed (lines : list string) (p : Process) : Process :=
  fold_left (fun p line => s_readLine (Some line) p) lines p.

End ReadlineLineReader.

(** ** FdoSecretsPluginCLI::userAction *)

Module Prompt.
Import QtText TextStream.

(** [input.trimmed().toLower()] *)
Definition clean (input : string) : string := toLower (trimmed input).

(** The inner loop: does one alias of [action.split("|")] equal [clean]? *)
Definition matchesAction (cleaned action : string) : bool :=
  existsb (fun m => String.eqb cleaned (toLower (trimmed m))) (split "|" action).

(** The loop over [matches] with its counter [i]. *)
Fixpoint findMatch (cleaned : string) (matches : list string) (i : Z) : option Z :=
  match matches with
  | [] => None
  | action :: rest =>
      if matchesAction cleaned action then Some i
      else findMatch cleaned rest (i + 1)
  end.

(** The [while (true)] loop. Every turn that does not return leaves less
    unread text than it found, so the length of the unread text bounds
    the number of turns; [fuel] is that bound. *)
Fixpoint userAction_loop (fuel : nat) (matches : list string)
    (availableActions : string) (p : Process) : Z * Process :=
  match fuel with
  | O => (-1, p)
  | S fuel' =>
      let (input, rest) := readWord (stdin p) in
      let p := set_stdin rest p in
      if atEnd (stdin p) then (-1, p)
      else
        match findMatch (clean input) matches 0 with
        | Some i => (i, p)
        | None =>
            userAction_loop fuel' matches availableActions
              (write (UnknownResponse input availableActions) p)
        end
  end.

(** The loop of [userAction] from process state [p]. *)
Definition userAction_while (matches : list string)
    (availableActions : string) (p : Process) : Z * Process :=
  userAction_loop (S (String.length (stdin p))) matches availableActions p.

(** [Q_ASSERT(actions.size() == matches.size())] is a debug-build check
    and constrains nothing here. *)
Definition userAction (message : Message) (actions matches : list string)
    (p : Process) : Z * Process :=
  let availableActions := join " | " actions in
  userAction_while matches availableActions
    (write (Asked message availableActions) p).

End Prompt.

(** ** FdoSecretsPluginCLI.cpp *)

(** Modelled from the spec: the enumeration AuthDecision is declared in
    fdosecrets/FdoSecretsPlugin.h, which is not among the sources. The spec
    lists its values; [Undecided] is the value-initialised one, which
    [QHash::value] returns for a key that is not in the map. *)
Inductive AuthDecision :=
| Undecided
| AllowedOnce
| DeniedOnce
| Allowed
| Denied.

(** enum Action *)
Inductive Action :=
| Rejected
| AllowSelected
| AllowAll
| DenyAll.

(** The calls the plugin makes into the entry store (core/Entry.h,
    core/Group.h, core/Database.h), in the order they are made. *)
Inductive StoreCall :=
| ReplaceReferencesWithValues (ref entry : Entry) (* ref->replaceReferencesWithValues(entry) *)
| DeleteEntry (entry : Entry)                     (* delete entry *)
| RecycleEntry (entry : Entry).                   (* entry->database()->recycleEntry(entry) *)

(** How the reference prompt leaves the loop body of requestEntriesRemove:
    falls through to "Marked for deletion", [continue], or [return 0]. *)
Inductive Resolution :=
| Marked
| Skipped
| Cancelled.

Definition isDurable (d : AuthDecision) : bool :=
  match d with
  | Allowed | Denied => true
  | _ => false
  end.

Definition isRemoval (c : StoreCall) : bool :=
  match c with DeleteEntry _ | RecycleEntry _ => true | _ => false end.

(** Lines that put a question to the operator. *)
Definition isQuestion (l : Line) : bool :=
  match l with Asked _ _ => true | _ => false end.

(** [QList::removeAll] *)
Definition removeAll (e : Entry) (l : list Entry) : list Entry :=
  List.filter (fun x => negb (Nat.eqb x e)) l.

(** [QHash::value]: the stored value, or a value-initialised one. *)
Definition value (decisions : gmap nat AuthDecision) (entry : Entry) : AuthDecision :=
  match decisions !! entry with
  | Some d => d
  | None => Undecided
  end.

Definition AuthDecision_eqb (a b : AuthDecision) : bool :=
  match a, b with
  | Undecided, Undecided | AllowedOnce, AllowedOnce | DeniedOnce, DeniedOnce
  | Allowed, Allowed | Denied, Denied => true
  | _, _ => false
  end.

Definition Action_eqb (a b : Action) : bool :=
  match a, b with
  | Rejected, Rejected | AllowSelected, AllowSelected
  | AllowAll, AllowAll | DenyAll, DenyAll => true
  | _, _ => false
  end.

(** Writing [v] for every entry of the list, as the first loop does
    under "Allow All" and "Deny All". *)
Definition assignAll (v : AuthDecision) (entries : list Entry)
    (d : gmap nat AuthDecision) : gmap nat AuthDecision :=
  fold_left (fun d e => <[e := v]> d) entries d.

(** The entry store (core/Entry.h, core/Group.h, core/Database.h) is not
    among the sources. The plugin is verified against every store that
    offers the four operations it calls. *)
Class EntryStore (Store : Type) := {
  (** [entry->database()->rootGroup()->referencesRecursive(entry)] *)
  referencesRecursive : Store -> Entry -> list Entry;
  (** [ref->replaceReferencesWithValues(entry)] *)
  replaceReferencesWithValues : Entry -> Entry -> Store -> Store;
  (** [delete entry] *)
  deleteEntry : Entry -> Store -> Store;
  (** [entry->database()->recycleEntry(entry)] *)
  recycleEntry : Entry -> Store -> Store
}.

Section FdoSecretsPluginCLI.
Import Prompt.

(** QObject::tr: the text in the language of the session. *)
Variable tr : string -> string.

(** *** requestEntriesUnlock *)

(** The first [switch (choice)]: action, actionStr and decision, or
    [return false]. *)
Definition chooseAction (choice : Z) : option (Action * string * AuthDecision) :=
  if choice =? 0 then Some (AllowAll, tr "Allow All", AllowedOnce)
  else if choice =? 1 then Some (DenyAll, tr "Deny All", DeniedOnce)
  else if choice =? 2 then Some (AllowSelected, tr "Allow Selected", AllowedOnce)
  else None.

(** The three calls of [userAction] in requestEntriesUnlock. *)
Definition askAction (p : Process) : Z * Process :=
  userAction ChooseAction
    [tr "[A]llow All"; tr "[D]eny All"; tr "Allow [S]elected"]
    [tr "a|allow|allow all"; tr "d|deny|deny all"; tr "s|selected|allow selected"]
    p.

Definition askEntry (app : DBusClient) (entry : Entry) (p : Process) : Z * Process :=
  userAction (AllowAccess app entry)
    [tr "[Y]es"; tr "[N]o"] [tr "y|yes"; tr "n|no"] p.

Definition askRemember (actionStr : string) (app : DBusClient)
    (warning : string) (p : Process) : Z * Process :=
  userAction (RememberAction actionStr app warning)
    [tr "[Y]es"; tr "[N]o"] [tr "y|yes"; tr "n|no"] p.

(** The loop [for (const auto& entry : entries)] that fills [decisions];
    the flag is false when the loop is left by [return false]. *)
Fixpoint decideEntries (app : DBusClient) (action : Action)
    (decision : AuthDecision) (entries : list Entry)
    (decisions : gmap nat AuthDecision) (p : Process)
    : bool * gmap nat AuthDecision * Process :=
  match entries with
  | [] => (true, decisions, p)
  | entry :: rest =>
      if Action_eqb action AllowSelected then
        let (choice, p) := askEntry app entry p in
        if choice =? -1 then (false, decisions, p)
        else
          let undecided := negb (choice =? 0) in
          decideEntries app action decision rest
            (<[entry := if undecided then Undecided else decision]> decisions) p
      else
        decideEntries app action decision rest
          (<[entry := decision]> decisions) p
  end.

Definition warningFor (action : Action) : string :=
  if Action_eqb action AllowAll || Action_eqb action DenyAll
  then tr "WARNING: this will concern ALL entries, not only the ones listed above!"
  else if Action_eqb action AllowSelected
  then tr "This will only concern entries selected above!"
  else "".

(** The loop of [case 0] of the second switch. *)
Definition rememberDecisions (decision : AuthDecision) (entries : list Entry)
    (decisions : gmap nat AuthDecision) : gmap nat AuthDecision :=
  fold_left
    (fun decisions entry =>
       if negb (AuthDecision_eqb (value decisions entry) Undecided)
       then <[entry := decision]> decisions
       else decisions)
    entries decisions.

(** The header and the list of entries written before the first question. *)
Definition announceUnlock (app : DBusClient) (entries : list Entry)
    (p : Process) : Process :=
  fold_left (fun p entry => write (AccessItem 1 entry) p) entries
    (write (RequestingAccess app) p).

(** The body of requestEntriesUnlock under its guard. The result carries
    the returned flag and the two reference parameters [decisions] and
    [forFutureEntries] as they are on return. *)
Definition requestEntriesUnlock_body (client : DBusClient) (name : string)
    (entries : list Entry) (decisions : gmap nat AuthDecision)
    (forFutureEntries : AuthDecision) (p : Process)
    : (bool * gmap nat AuthDecision * AuthDecision) * Process :=
  let app := client in
  let forFutureEntries := Undecided in
  let p := announceUnlock app entries p in
  let (choice, p) := askAction p in
  match chooseAction choice with
  | None => ((false, decisions, forFutureEntries), p)
  | Some (action, actionStr, decision) =>
      match decideEntries app action decision entries decisions p with
      | (false, decisions, p) => ((false, decisions, forFutureEntries), p)
      | (true, decisions, p) =>
          let warning := warningFor action in
          let (choice, p) := askRemember actionStr app warning p in
          if choice =? 0 then
            let '(decision, forFutureEntries) :=
              match action with
              | AllowSelected => (Allowed, forFutureEntries)
              | AllowAll => (Allowed, Allowed)
              | DenyAll => (Denied, Denied)
              | Rejected => (decision, forFutureEntries)
              end in
            ((true, rememberDecisions decision entries decisions,
              forFutureEntries), p)
          else if choice =? 1 then ((true, decisions, forFutureEntries), p)
          else ((false, decisions, forFutureEntries), p)
      end
  end.

Definition requestEntriesUnlock (client : DBusClient) (name : string)
    (entries : list Entry) (decisions : gmap nat AuthDecision)
    (forFutureEntries : AuthDecision) (p : Process)
    : (bool * gmap nat AuthDecision * AuthDecision) * Process :=
  LineReader.LineReaderGuard
    (requestEntriesUnlock_body client name entries decisions forFutureEntries) p.

(** The operator's answers to the questions of a run of the loop of
    [decideEntries] under "Allow Selected", in the order of the entries
    and up to the one that cancels. *)
Fixpoint answers (app : DBusClient) (entries : list Entry) (p : Process) : list Z :=
  match entries with
  | [] => []
  | entry :: rest =>
      let (choice, p) := askEntry app entry p in
      choice :: (if choice =? -1 then [] else answers app rest p)
  end.

(** What requestEntriesUnlock hands back: the returned flag, and the
    reference parameters [decisions] and [forFutureEntries]. *)
Definition returned (r : (bool * gmap nat AuthDecision * AuthDecision) * Process)
    : bool := fst (fst (fst r)).
Definition decisionsOf (r : (bool * gmap nat AuthDecision * AuthDecision) * Process)
    : gmap nat AuthDecision := snd (fst (fst r)).
Definition forFutureEntriesOf
    (r : (bool * gmap nat AuthDecision * AuthDecision) * Process)
    : AuthDecision := snd (fst r).

(** *** confirmDeleteEntries *)

Definition confirmDeleteEntries (client : DBusClient) (name : string)
    (entries : list Entry) (permanent : bool) (p : Process) : bool * Process :=
  let app := client in
  let p := write (RequestingRemoval app permanent name) p in
  let p := fold_left (fun p entry => write (RemovalItem 1 entry) p) entries p in
  let p := write Blank p in
  let (choice, p) :=
    userAction ChooseAction
      [tr "[A]llow"; tr "[D]eny"] [tr "a|allow"; tr "d|deny"] p in
  (choice =? 0, p).

(** *** requestEntriesRemove *)

Context {Store : Type} `{EntryStore Store}.

(** What requestEntriesRemove works on: the process, the store with the
    record of the calls made into it, and the setting it reads. *)
Record World := {
  process : Process;
  database : Store;
  calls : list StoreCall;            (* calls into the store so far *)
  confirmDeleteItem : bool           (* FdoSecrets::settings()->confirmDeleteItem() *)
}.

Definition set_process (p : Process) (w : World) : World :=
  {| process := p; database := database w; calls := calls w;
     confirmDeleteItem := confirmDeleteItem w |}.

(** What a call does to the store. *)
Definition applyCall (s : Store) (c : StoreCall) : Store :=
  match c with
  | ReplaceReferencesWithValues ref entry => replaceReferencesWithValues ref entry s
  | DeleteEntry entry => deleteEntry entry s
  | RecycleEntry entry => recycleEntry entry s
  end.

(** A call into the store: the store changes and the call is recorded. *)
Definition call (c : StoreCall) (w : World) : World :=
  {| process := process w;
     database := applyCall (database w) c;
     calls := calls w ++ [c];
     confirmDeleteItem := confirmDeleteItem w |}.

(** Code that works on the terminal only. *)
Definition onProcess {A} (f : Process -> A * Process) (w : World) : A * World :=
  let (r, p) := f (process w) in (r, set_process p w).

(** The references of [entry] with the members of the cohort removed. *)
Definition ignoreCohort (entries references : list Entry) : list Entry :=
  fold_left (fun references e => removeAll e references) entries references.

(** [QList::isEmpty] *)
Definition isEmpty (l : list Entry) : bool :=
  match l with [] => true | _ :: _ => false end.

(** The reference prompt: the line with the number of references and the
    call of [userAction]. *)
Definition askReferences (entry : Entry) (references : list Entry)
    (w : World) : Z * World :=
  onProcess
    (fun p =>
       userAction ReplaceReferences
         [tr "[O]verwrite references with values";
          tr "[S]kip this entry"; tr "[D]elete anyway"]
         [tr "o|overwrite"; tr "s|skip"; tr "d|delete"]
         (write (EntryHasReferences entry (length references)) p)) w.

(** The body of the first loop for one [entry], up to
    "Marked for deletion". *)
Definition resolveReferences (entries : list Entry) (permanent : bool)
    (entry : Entry) (w : World) : Resolution * World :=
  if permanent then
    let references := referencesRecursive (database w) entry in
    if negb (isEmpty references) then
      let references := ignoreCohort entries references in
      let (choice, w) := askReferences entry references w in
      if choice =? 0 then
        (Marked,
         fold_left
           (fun w ref => call (ReplaceReferencesWithValues ref entry) w)
           references w)
      else if choice =? 1 then (Skipped, w)
      else if choice =? 2 then (Marked, w)
      else (Cancelled, w)
    else (Marked, w)
  else (Marked, w).

(** The first loop: [None] when it is left by [return 0]. *)
Fixpoint selectEntries (entries : list Entry) (permanent : bool)
    (remaining selectedEntries : list Entry) (w : World)
    : option (list Entry) * World :=
  match remaining with
  | [] => (Some selectedEntries, w)
  | entry :: rest =>
      match resolveReferences entries permanent entry w with
      | (Cancelled, w) => (None, w)
      | (Skipped, w) => selectEntries entries permanent rest selectedEntries w
      | (Marked, w) =>
          selectEntries entries permanent rest (selectedEntries ++ [entry]) w
      end
  end.

(** The second loop. *)
Definition removeEntries (permanent : bool) (selectedEntries : list Entry)
    (w : World) : World :=
  fold_left
    (fun w entry =>
       if permanent then call (DeleteEntry entry) w
       else call (RecycleEntry entry) w)
    selectedEntries w.

(** The condition of the second [if]:
    [settings()->confirmDeleteItem() && confirmDeleteEntries(...)]. *)
Definition confirmation (client : DBusClient) (name : string)
    (entries : list Entry) (permanent : bool) (w : World) : bool * World :=
  if confirmDeleteItem w
  then onProcess (confirmDeleteEntries client name entries permanent) w
  else (false, w).

Definition requestEntriesRemove_body (client : DBusClient) (name : string)
    (entries : list Entry) (permanent : bool) (w : World) : nat * World :=
  if isEmpty entries then (0%nat, w)
  else
    let (confirmed, w) := confirmation client name entries permanent w in
    if confirmed then (0%nat, w)
    else
      match selectEntries entries permanent entries [] w with
      | (None, w) => (0%nat, w)
      | (Some selectedEntries, w) =>
          (length selectedEntries, removeEntries permanent selectedEntries w)
      end.

(** The function with its LineReaderGuard. *)
Definition requestEntriesRemove (client : DBusClient) (name : string)
    (entries : list Entry) (permanent : bool) (w : World) : nat * World :=
  let (r, w) :=
    requestEntriesRemove_body client name entries permanent
      (set_process (LineReader.pause (process w)) w) in
  (r, set_process (LineReader.restore (process w)) w).

(** The operator's answer at the reference prompt of [entry] in world
    [w], when the loop body puts that prompt. *)
Definition answerAt (entries : list Entry) (permanent : bool)
    (entry : Entry) (w : World) : option Z :=
  if permanent && negb (isEmpty (referencesRecursive (database w) entry))
  then Some (fst (askReferences entry
                    (ignoreCohort entries (referencesRecursive (database w) entry)) w))
  else None.

(** The answer "Skip this entry". *)
Definition isSkip (answer : option Z) : bool :=
  match answer with
  | Some 1 => true
  | _ => false
  end.

(** The calls that the answer "Overwrite" at the prompt of [entry] in
    world [w] is to make: one for each reference outside the cohort. *)
Definition overwriteCalls (entries : list Entry) (permanent : bool)
    (entry : Entry) (w : World) : list StoreCall :=
  match answerAt entries permanent entry w with
  | Some 0 =>
      map (fun ref => ReplaceReferencesWithValues ref entry)
        (ignoreCohort entries (referencesRecursive (database w) entry))
  | _ => []
  end.

(** The worlds in which the first loop runs its body, one per entry and
    in the order of the entries, up to the entry that cancels. *)
Fixpoint visits (entries : list Entry) (permanent : bool)
    (remaining : list Entry) (w : World) : list World :=
  match remaining with
  | [] => []
  | entry :: rest =>
      w :: match resolveReferences entries permanent entry w with
           | (Cancelled, _) => []
           | (_, w') => visits entries permanent rest w'
           end
  end.

(** The entries of a run of the first loop that are not skipped, and
    the calls its "Overwrite" answers make. *)
Definition kept (entries remaining : list Entry) (w : World) : list Entry :=
  map fst
    (List.filter (fun ev => negb (isSkip (answerAt entries true (fst ev) (snd ev))))
       (combine remaining (visits entries true remaining w))).

Definition overwritten (entries remaining : list Entry) (w : World)
    : list StoreCall :=
  flat_map (fun ev => overwriteCalls entries true (fst ev) (snd ev))
    (combine remaining (visits entries true remaining w)).

End FdoSecretsPluginCLI.

Arguments World : clear implicits.

(** Modelled from the spec: a store for the worked examples. The spec has
    the reference set of an entry as the other entries of the store whose
    fields point at it, "Overwrite" as replacing those pointers by values,
    and removal as taking the entry out of the store. An entry is kept
    with the entries its fields point at. *)
Module ExampleStore.

Definition Store : Type := list (Entry * list Entry).

Definition references (s : Store) (entry : Entry) : list Entry :=
  map fst (List.filter (fun er => existsb (Nat.eqb entry) (snd er)) s).

Definition replace (ref entry : Entry) (s : Store) : Store :=
  map (fun er =>
         if Nat.eqb (fst er) ref then (fst er, removeAll entry (snd er))
         else er) s.

Definition remove (entry : Entry) (s : Store) : Store :=
  List.filter (fun er => negb (Nat.eqb (fst er) entry)) s.

#[export] Instance store : EntryStore Store := {|
  referencesRecursive := references;
  replaceReferencesWithValues := replace;
  deleteEntry := remove;
  recycleEntry := remove
|}.

(** No translation is installed: [tr] returns its argument. *)
Definition tr (s : string) : string := s.

Definition client : DBusClient := {| client_name := "secret-tool"; client_pid := 4242 |}.

Definition newline : string := String "010" "".

(** The text of answers typed one per line. *)
Definition typed (answers : list string) : string :=
  fold_right (fun a s => a +:+ newline +:+ s) "" answers.

Definition yesNo : list string := ["y|yes"; "n|no"].
Definition yesNoLabels : list string := ["[Y]es"; "[N]o"].

(** Entries 1 and 2 are referenced from outside the batch 1, 2, 3 and
    entry 3 is not. *)
Definition referenced : Store :=
  [(1, []); (2, []); (3, []); (8, [2]); (9, [1; 2])]%nat.

(** Entry 1 is referenced by entry 2 only. *)
Definition cohort : Store := [(1, []); (2, [1])]%nat.

(** A session on the plain reader with [input] waiting on the terminal. *)
Definition session (input : string) : Process :=
  LineReader.create Simple "> " input.

Definition world (input : string) (s : Store) (confirm : bool) : World Store :=
  {| process := session input; database := s; calls := [];
     confirmDeleteItem := confirm |}.

End ExampleStore.

(** ** keepassxc-cli.cpp: the prompt text and the handler of a command line *)

(** The part of Database that the session reads: [metadata()->name()],
    [QFileInfo(filePath()).fileName()] and [canonicalFilePath()]. *)
Record Database := {
  db_name : string;
  db_fileName : string;
  db_canonicalFilePath : string
}.

(** [QString::isEmpty] *)
Definition QString_isEmpty (s : string) : bool :=
  match s with
  | EmptyString => true
  | String _ _ => false
  end.

(** The calls into the two integrations, in the order they are made. *)
Inductive Hook :=
| FdoUnregisterDatabase (path : string)   (* fdoSS->unregisterDatabase(path) *)
| FdoDatabaseUnlocked (path : string)     (* fdoSS->databaseUnlocked(path, db) *)
| SshDatabaseLocked (db : Database)       (* sshAgent()->databaseLocked(db) *)
| SshDatabaseUnlocked (db : Database).    (* sshAgent()->databaseUnlocked(db) *)

Section Interactive.

(** Everything outside the session that a command can read and change:
  files, the terminal, key agents. *)
Variable Env : Type.

(** What the handler uses of a Command (cli/Command.h): its name, and what
  [execute] makes of the database handed to it in [currentDatabase] and
  of the rest of the world. The exit code of [execute] is not looked at
  by the handler. *)
Record Command := {
cmd_name : string;
cmd_execute : list string -> option Database -> Env -> option Database * Env
}.

(** The variables the handler of [LineReader::readLine] captures, and the
  world the commands act on. *)
Record Session := {
currentDatabase : option Database;
prompt : string;                 (* the text the reader's m_prompt refers to *)
hooks : list Hook;               (* integration calls so far *)
quitRequested : bool;            (* app.quit() was called *)
unknownCommands : list string;   (* "Unknown command %1" lines on STDERR *)
env : Env
}.

(** The build options WITH_XC_FDOSECRETS and WITH_XC_SSHAGENT. *)
Variables WITH_XC_FDOSECRETS WITH_XC_SSHAGENT : bool.

(** getPrompt *)
Definition getPrompt (currentDatabase : option Database)
  (withFdoSecrets withSSHAgent : bool) : string :=
let prompt := "" in
let prompt :=
  if withFdoSecrets || withSSHAgent then
    let prompt := prompt +:+ "[" in
    let prompt :=
      if WITH_XC_FDOSECRETS && withFdoSecrets then prompt +:+ "F" else prompt in
    let prompt :=
      if WITH_XC_SSHAGENT && withSSHAgent then prompt +:+ "S" else prompt in
    prompt +:+ "] "
  else prompt in
let prompt :=
  match currentDatabase with
  | Some db =>
      let prompt := prompt +:+ db_name db in
      if QString_isEmpty prompt then prompt +:+ db_fileName db else prompt
  | None => prompt
  end in
prompt +:+ "> ".

(** The arguments of enterInteractiveMode, and the two collaborators of
  the handler that are not among the sources:
  [Utils::splitCommandString] and [Commands::getCommand]. *)
Variables withFdoSecrets withSSHAgent : bool.
Variable splitCommandString : string -> list string.
Variable getCommand : string -> option Command.

(** [cmd->execute(args)] between the two swaps of [currentDatabase]. *)
Definition executed (result : option Database * Env) (s : Session) : Session :=
{| currentDatabase := fst result; prompt := prompt s; hooks := hooks s;
   quitRequested := quitRequested s; unknownCommands := unknownCommands s;
   env := snd result |}.

Definition set_prompt (text : string) (s : Session) : Session :=
{| currentDatabase := currentDatabase s; prompt := text; hooks := hooks s;
   quitRequested := quitRequested s; unknownCommands := unknownCommands s;
   env := env s |}.

Definition hook (h : Hook) (s : Session) : Session :=
{| currentDatabase := currentDatabase s; prompt := prompt s;
   hooks := hooks s ++ [h];
   quitRequested := quitRequested s; unknownCommands := unknownCommands s;
   env := env s |}.

Definition quit (s : Session) : Session :=
{| currentDatabase := currentDatabase s; prompt := prompt s; hooks := hooks s;
   quitRequested := true; unknownCommands := unknownCommands s; env := env s |}.

Definition unknownCommand (arg : string) (s : Session) : Session :=
{| currentDatabase := currentDatabase s; prompt := prompt s; hooks := hooks s;
   quitRequested := quitRequested s;
   unknownCommands := unknownCommands s ++ [arg]; env := env s |}.

(** "unregister current database" *)
Definition unregisterCurrent (s : Session) : Session :=
match currentDatabase s with
| Some db =>
    let s :=
      if WITH_XC_FDOSECRETS && withFdoSecrets
      then hook (FdoUnregisterDatabase (db_canonicalFilePath db)) s else s in
    if WITH_XC_SSHAGENT && withSSHAgent
    then hook (SshDatabaseLocked db) s else s
| None => s
end.

(** "register new database" *)
Definition registerCurrent (s : Session) : Session :=
match currentDatabase s with
| Some db =>
    let s :=
      if WITH_XC_FDOSECRETS && withFdoSecrets
      then hook (FdoDatabaseUnlocked (db_canonicalFilePath db)) s else s in
    if WITH_XC_SSHAGENT && withSSHAgent
    then hook (SshDatabaseUnlocked db) s else s
| None => s
end.

(** The slot connected to [LineReader::readLine] in enterInteractiveMode. *)
Definition onReadLine (s : Session) (command : string) : Session :=
let args := splitCommandString command in
match args with
| [] => s
| arg0 :: _ =>
    match getCommand arg0 with
    | None => unknownCommand arg0 s
    | Some cmd =>
        if String.eqb (cmd_name cmd) "quit" || String.eqb (cmd_name cmd) "exit"
        then quit s
        else
          let s :=
            if String.eqb (cmd_name cmd) "open" || String.eqb (cmd_name cmd) "close"
            then unregisterCurrent s else s in
          let s := executed (cmd_execute cmd args (currentDatabase s) (env s)) s in
          let s :=
            if String.eqb (cmd_name cmd) "open" then registerCurrent s else s in
          set_prompt (getPrompt (currentDatabase s) withFdoSecrets withSSHAgent) s
    end
end.

(** The session as enterInteractiveMode sets it up once the first "open"
  has given [db] (and, with the SSH agent asked for, the agent is
  enabled): the prompt is computed and the database is announced to the
  integrations. *)
Definition enterInteractiveMode (db : Database) (world : Env) : Session :=
let s :=
  {| currentDatabase := Some db;
     prompt := getPrompt (Some db) withFdoSecrets withSSHAgent;
     hooks := []; quitRequested := false; unknownCommands := [];
     env := world |} in
let s :=
  if WITH_XC_FDOSECRETS && withFdoSecrets
  then hook (FdoDatabaseUnlocked (db_canonicalFilePath db)) s else s in
if WITH_XC_SSHAGENT && withSSHAgent
then hook (SshDatabaseUnlocked db) s else s.

(** The lines the reader delivers, handled in turn. *)
Definition handleLines (commands : list string) (s : Session) : Session :=
fold_left onReadLine commands s.

(** After the event loop: the database still open is taken away from the
  integrations. *)
Definition leaveInteractiveMode (s : Session) : Session :=
unregisterCurrent s.

End Interactive.

Arguments cmd_name {Env} c.
Arguments cmd_execute {Env} c args db world.
Arguments currentDatabase {Env} s.
Arguments prompt {Env} s.
Arguments hooks {Env} s.
Arguments quitRequested {Env} s.
Arguments unknownCommands {Env} s.
Arguments env {Env} s.
Arguments executed {Env} result s.
Arguments set_prompt {Env} text s.
Arguments hook {Env} h s.
Arguments quit {Env} s.
Arguments unknownCommand {Env} arg s.
Arguments unregisterCurrent {Env} WITH_XC_FDOSECRETS WITH_XC_SSHAGENT
  withFdoSecrets withSSHAgent s.
Arguments registerCurrent {Env} WITH_XC_FDOSECRETS WITH_XC_SSHAGENT
  withFdoSecrets withSSHAgent s.
Arguments onReadLine {Env} WITH_XC_FDOSECRETS WITH_XC_SSHAGENT
  withFdoSecrets withSSHAgent splitCommandString getCommand s command.
Arguments enterInteractiveMode {Env} WITH_XC_FDOSECRETS WITH_XC_SSHAGENT
  withFdoSecrets withSSHAgent db world.
Arguments handleLines {Env} WITH_XC_FDOSECRETS WITH_XC_SSHAGENT
  withFdoSecrets withSSHAgent splitCommandString getCommand commands s.
Arguments leaveInteractiveMode {Env} WITH_XC_FDOSECRETS WITH_XC_SSHAGENT
  withFdoSecrets withSSHAgent s.

(** *** What the integrations hold *)

Definition Database_eqb (a b : Database) : bool :=
  String.eqb (db_name a) (db_name b) &&
  String.eqb (db_fileName a) (db_fileName b) &&
  String.eqb (db_canonicalFilePath a) (db_canonicalFilePath b).

(** The path registered with the secret service and the database unlocked
    for the SSH agent. *)
Definition Held : Type := option string * option Database.

(** One call, replayed: a registration wants nothing registered, and a
    call that takes a database away wants that very database registered;
    [None] when the call does not fit. *)
Definition holdStep (held : option Held) (h : Hook) : option Held :=
  match held with
  | None => None
  | Some (fdo, ssh) =>
      match h with
      | FdoDatabaseUnlocked path =>
          match fdo with
          | None => Some (Some path, ssh)
          | Some _ => None
          end
      | FdoUnregisterDatabase path =>
          match fdo with
          | Some registered =>
              if String.eqb registered path then Some (None, ssh) else None
          | None => None
          end
      | SshDatabaseUnlocked db =>
          match ssh with
          | None => Some (fdo, Some db)
          | Some _ => None
          end
      | SshDatabaseLocked db =>
          match ssh with
          | Some unlocked =>
              if Database_eqb unlocked db then Some (fdo, None) else None
          | None => None
          end
      end
  end.

(** What the integrations hold after the calls of a log, when every call
    of the log fits. *)
Definition heldAfter (log : list Hook) : option Held :=
  fold_left holdStep log (Some (None, None)).

(** What the integrations are to hold for the database of a session:
    each integration that is switched on holds that database, and nothing
    else is held. *)
Definition holding (fdo ssh : bool) (db : option Database) : Held :=
  (if fdo then option_map db_canonicalFilePath db else None,
   if ssh then db else None).

(** Commands for the worked examples: the environment counts the commands
    executed; "open" opens the database named by its first argument,
    "close" leaves none, and the other commands leave the database as it
    is. *)
Module ExampleSession.

Definition exampleDatabase (name : string) : Database :=
{| db_name := ""; db_fileName := name;
   db_canonicalFilePath := "/home/user/" +:+ name |}.

Definition exampleCommand (name : string) : Command nat :=
{| cmd_name := name;
   cmd_execute := fun args db world =>
     (if String.eqb name "open"
      then match args with
           | _ :: file :: _ => Some (exampleDatabase file)
           | _ => None
           end
      else if String.eqb name "close" then None
      else db,
      S world) |}.

Definition exampleGetCommand (name : string) : option (Command nat) :=
if existsb (String.eqb name) ["open"; "close"; "ls"; "quit"; "exit"]
then Some (exampleCommand name) else None.

Definition exampleSplit (command : string) : list string :=
List.filter (fun w => negb (QString_isEmpty w)) (QtText.split " " command).

End ExampleSession.

(** ** Notions used to state further properties *)

(** A line of input as [readLine] gives it back: no line feed in it and no
    carriage return at its end. *)
Fixpoint isLine (s : string) : bool :=
  match s with
  | EmptyString => true
  | String c r =>
      negb (Ascii.eqb c "010") &&
      (if Ascii.eqb c "013" then negb (TextStream.atEnd r) else true) &&
      isLine r
  end.

(** The reader object is as it was: only the standard streams differ. *)
Definition sameReader (p q : Process) : Prop :=
  backend q = backend p /\ m_prompt q = m_prompt p /\
  connections q = connections p /\ rl_linefunc q = rl_linefunc p /\
  history q = history p /\ emitted q = emitted p.

(** The lines a LineReaderGuard writes: [pause] on entry, [restore] on
    exit. *)
Definition pauseLines (p : Process) : list Line :=
  match backend p with
  | Simple => [ReaderNewline]
  | Readline => []
  end.

Definition restoreLines (p : Process) : list Line := [ReaderPrompt (m_prompt p)].

(** The reference set without the cohort, as a filter. *)
Definition outsideCohort (entries references : list Entry) : list Entry :=
  List.filter (fun r => negb (existsb (Nat.eqb r) entries)) references.

(** The message of a question. *)
Definition questionOf (l : Line) : option Message :=
  match l with
  | Asked message _ => Some message
  | _ => None
  end.

(** The questions among the lines written, in the order they are put. *)
Definition questionsOf (lines : list Line) : list Message :=
  flat_map (fun l => match questionOf l with Some m => [m] | None => [] end) lines.

(** From [p] to [q] the output has grown, and the questions put in between
    are [questions]. *)
Definition asks (p q : Process) (questions : list Message) : Prop :=
  exists lines,
    stdout q = (stdout p ++ lines)%list /\ questionsOf lines = questions.

(** [x] occurs in [l] at position [i] and not after it. *)
Definition lastAt (l : list Entry) (i : nat) (x : Entry) : Prop :=
  l !! i = Some x /\ forall j, (i < j)%nat -> l !! j <> Some x.

(** From [p] to [q] only the standard streams have changed, and the
    questions put in between are [questions]. *)
Definition talks (p q : Process) (questions : list Message) : Prop :=
  sameReader p q /\ asks p q questions.

(** The call that removes an entry: [delete entry] when the removal is
    permanent, a move to the recycle bin otherwise. *)
Definition removal (permanent : bool) (entry : Entry) : StoreCall :=
  if permanent then DeleteEntry entry else RecycleEntry entry.

(** Splits the conjunctions that are written out, not the notions that
    unfold to one. *)
Ltac conjs := repeat match goal with |- _ /\ _ => split end.

(** ** Facts about the text operations *)

Module TextFacts.
Import QtText TextStream.

Lemma append_cons c s t : String c s +:+ t = String c (s +:+ t).
Proof. reflexivity. Qed.

Lemma append_empty_l s : "" +:+ s = s.
Proof. reflexivity. Qed.

Lemma append_assoc s t u : (s +:+ t) +:+ u = s +:+ (t +:+ u).
Proof.
  induction s as [|c s IH]; [reflexivity|].
  rewrite !append_cons. now rewrite IH.
Qed.

Lemma trimLeft_length s : (String.length (trimLeft s) <= String.length s)%nat.
Proof.
  induction s as [|c s IH]; simpl; [lia|].
  destruct (isSpace c); simpl; lia.
Qed.

Lemma scanWord_length s :
  (String.length (snd (scanWord s)) <= String.length s)%nat.
Proof.
  induction s as [|c s IH]; simpl; [lia|].
  destruct (isSpace c); simpl; [lia|].
  destruct (scanWord s) as [w rest]; simpl in *; lia.
Qed.

(** A read that does not reach the end of the text consumes some of it. *)
Lemma readWord_shrinks s :
  atEnd (snd (readWord s)) = false ->
  (String.length (snd (readWord s)) < String.length s)%nat.
Proof.
  unfold readWord. destruct s as [|c s]; simpl; [discriminate|].
  destruct (isSpace c) eqn:Hc.
  - intros _. pose proof (scanWord_length (trimLeft s)).
    pose proof (trimLeft_length s). lia.
  - simpl. rewrite Hc. pose proof (scanWord_length s).
    destruct (scanWord s) as [w rest]; simpl in *. lia.
Qed.

Lemma scanWord_split s :
  s = fst (scanWord s) +:+ snd (scanWord s) /\
  noSpace (fst (scanWord s)) = true.
Proof.
  induction s as [|c s [IH1 IH2]]; simpl; [easy|].
  destruct (isSpace c) eqn:Hc; simpl; [easy|].
  destruct (scanWord s) as [w rest]; simpl in *.
  rewrite Hc. split; [now rewrite append_cons, <- IH1 | easy].
Qed.

Lemma trimLeft_split s :
  exists ws, s = ws +:+ trimLeft s /\ allSpace ws = true.
Proof.
  induction s as [|c s (ws & IH1 & IH2)]; simpl.
  - now exists "".
  - destruct (isSpace c) eqn:Hc.
    + exists (String c ws). rewrite append_cons, <- IH1. simpl. now rewrite Hc.
    + now exists "".
Qed.

(** What [in >> input] takes from the text: white space, then the word. *)
Lemma readWord_split s :
  exists ws,
    s = ws +:+ fst (readWord s) +:+ snd (readWord s) /\
    allSpace ws = true /\ noSpace (fst (readWord s)) = true.
Proof.
  unfold readWord. destruct (trimLeft_split s) as (ws & H1 & H2).
  destruct (scanWord_split (trimLeft s)) as [H3 H4].
  exists ws. now rewrite <- H3.
Qed.

Lemma trimLeft_skip ws s : allSpace ws = true -> trimLeft (ws +:+ s) = trimLeft s.
Proof.
  induction ws as [|c ws IH]; [reflexivity|]. simpl.
  intros [Hc Hws]%andb_prop. rewrite ?append_cons. simpl. rewrite Hc. auto.
Qed.

Lemma trimLeft_noSpace s : noSpace s = true -> trimLeft s = s.
Proof.
  destruct s as [|c s]; [reflexivity|]. simpl.
  intros [Hc _]%andb_prop. now destruct (isSpace c).
Qed.

Lemma trimRight_noSpace s : noSpace s = true -> trimRight s = s.
Proof.
  induction s as [|c s IH]; [reflexivity|]. simpl.
  intros [Hc Hs]%andb_prop. rewrite (IH Hs).
  destruct s; [|reflexivity]. now destruct (isSpace c).
Qed.

(** On a word read by [in >> input], [trimmed] changes nothing. *)
Lemma trimmed_noSpace s : noSpace s = true -> trimmed s = s.
Proof.
  intros H. unfold trimmed. rewrite (trimLeft_noSpace _ H).
  now apply trimRight_noSpace.
Qed.

(** A word in front of white space is read whole. *)
Lemma scanWord_word w c rest :
  noSpace w = true -> isSpace c = true ->
  scanWord (w +:+ String c rest) = (w, String c rest).
Proof.
  intros Hw Hc. induction w as [|d w IH].
  - rewrite append_empty_l. simpl. now rewrite Hc.
  - simpl in Hw. apply andb_prop in Hw as [Hd Hw].
    rewrite append_cons. simpl. destruct (isSpace d); [discriminate|].
    now rewrite (IH Hw).
Qed.

Lemma readWord_word ws w c rest :
  allSpace ws = true -> noSpace w = true -> w <> "" -> isSpace c = true ->
  readWord (ws +:+ w +:+ String c rest) = (w, String c rest).
Proof.
  intros Hws Hw Hne Hc. unfold readWord.
  rewrite (trimLeft_skip _ _ Hws).
  assert (trimLeft (w +:+ String c rest) = w +:+ String c rest) as ->.
  { destruct w as [|d w]; [congruence|].
    apply andb_prop in Hw as [Hd _].
    rewrite append_cons. simpl. now destruct (isSpace d). }
  now apply scanWord_word.
Qed.

End TextFacts.

(** ** Facts about [userAction] *)

Module PromptFacts.
Import QtText TextStream Prompt TextFacts.

(** With more fuel than unread characters the loop never runs dry. *)
Lemma userAction_loop_fuel n m matches avail p :
  (String.length (stdin p) < n)%nat -> (String.length (stdin p) < m)%nat ->
  userAction_loop n matches avail p = userAction_loop m matches avail p.
Proof.
  revert m p. induction n as [|n IH]; intros m p Hn Hm; [lia|].
  destruct m as [|m]; [lia|]. simpl.
  pose proof (readWord_shrinks (stdin p)) as Hlt.
  destruct (readWord (stdin p)) as [input rest]. simpl in *.
  destruct (atEnd rest); [reflexivity|].
  destruct (findMatch (clean input) matches 0); [reflexivity|].
  apply IH; simpl; specialize (Hlt eq_refl); lia.
Qed.

(** One turn of the [while (true)] loop. *)
Lemma userAction_while_eq matches avail p :
  userAction_while matches avail p =
    let (input, rest) := readWord (stdin p) in
    if atEnd rest then (-1, set_stdin rest p)
    else match findMatch (clean input) matches 0 with
         | Some i => (i, set_stdin rest p)
         | None =>
             userAction_while matches avail
               (write (UnknownResponse input avail) (set_stdin rest p))
         end.
Proof.
  unfold userAction_while at 1. simpl.
  pose proof (readWord_shrinks (stdin p)) as Hlt.
  destruct (readWord (stdin p)) as [input rest]. simpl in *.
  destruct (atEnd rest); [reflexivity|].
  destruct (findMatch (clean input) matches 0); [reflexivity|].
  unfold userAction_while. apply userAction_loop_fuel; simpl;
    specialize (Hlt eq_refl); lia.
Qed.

(** Induction along the turns of the loop. *)
Lemma userAction_while_ind matches avail (P : Process -> Z * Process -> Prop) :
  (forall p, atEnd (snd (readWord (stdin p))) = true ->
     P p (-1, set_stdin (snd (readWord (stdin p))) p)) ->
  (forall p i, atEnd (snd (readWord (stdin p))) = false ->
     findMatch (clean (fst (readWord (stdin p)))) matches 0 = Some i ->
     P p (i, set_stdin (snd (readWord (stdin p))) p)) ->
  (forall p r, atEnd (snd (readWord (stdin p))) = false ->
     findMatch (clean (fst (readWord (stdin p)))) matches 0 = None ->
     P (write (UnknownResponse (fst (readWord (stdin p))) avail)
          (set_stdin (snd (readWord (stdin p))) p)) r ->
     P p r) ->
  forall p, P p (userAction_while matches avail p).
Proof.
  intros Hend Hmatch Hretry p.
  remember (String.length (stdin p)) as n eqn:Hn.
  revert p Hn. induction n as [n IH] using lt_wf_ind. intros p Hn.
  rewrite userAction_while_eq.
  pose proof (readWord_shrinks (stdin p)) as Hlt.
  specialize (Hend p). specialize (Hmatch p). specialize (Hretry p).
  destruct (readWord (stdin p)) as [input rest]. simpl in *.
  destruct (atEnd rest) eqn:Hrest; [now apply Hend|].
  destruct (findMatch (clean input) matches 0) as [i|] eqn:Hfind.
  - now apply Hmatch.
  - apply Hretry; [reflexivity..|].
    eapply IH; [|reflexivity]. simpl. specialize (Hlt eq_refl). lia.
Qed.

Lemma matchesAction_spec cleaned action :
  matchesAction cleaned action = true <->
  exists alias, In alias (split "|" action) /\ cleaned = clean alias.
Proof.
  unfold matchesAction. rewrite existsb_exists.
  split; intros (alias & Hin & Heq); exists alias; split; auto.
  - now apply String.eqb_eq in Heq.
  - now apply String.eqb_eq.
Qed.

(** [findMatch] returns the first group that holds the cleaned input. *)
Lemma findMatch_Some cleaned matches i0 i :
  findMatch cleaned matches i0 = Some i <->
  exists k action,
    i = i0 + Z.of_nat k /\ matches !! k = Some action /\
    matchesAction cleaned action = true /\
    (forall j other, (j < k)%nat -> matches !! j = Some other ->
       matchesAction cleaned other = false).
Proof.
  revert i0. induction matches as [|a ms IH]; intros i0; simpl.
  - split; [discriminate|]. now intros (k & action & _ & H & _).
  - destruct (matchesAction cleaned a) eqn:Ha.
    + split.
      * intros [= <-]. exists 0%nat, a. repeat split; auto; [lia|].
        intros j other Hj. lia.
      * intros (k & action & -> & Hk & Hm & Hfirst).
        destruct k as [|k]; [f_equal; lia|].
        specialize (Hfirst 0%nat a ltac:(lia) eq_refl). congruence.
    + rewrite IH. split.
      * intros (k & action & -> & Hk & Hm & Hfirst).
        exists (S k), action. repeat split; auto; [lia|].
        intros [|j] other Hj Hother; simpl in Hother.
        -- congruence.
        -- apply (Hfirst j); [lia|assumption].
      * intros (k & action & -> & Hk & Hm & Hfirst).
        destruct k as [|k]; simpl in Hk; [congruence|].
        exists k, action. repeat split; auto; [lia|].
        intros j other Hj Hother. apply (Hfirst (S j)); [lia|assumption].
Qed.

Lemma findMatch_None cleaned matches i0 :
  findMatch cleaned matches i0 = None <->
  Forall (fun action => matchesAction cleaned action = false) matches.
Proof.
  revert i0. induction matches as [|a ms IH]; intros i0; simpl.
  - split; auto.
  - destruct (matchesAction cleaned a) eqn:Ha.
    + split; [discriminate|]. intros H. inversion H; congruence.
    + rewrite IH. split; [now constructor|]. intros H. now inversion H.
Qed.

(** [userAction] answers -1 exactly when it leaves the input exhausted. *)
Lemma userAction_while_range matches avail p :
  let r := userAction_while matches avail p in
  (fst r = -1 /\ atEnd (stdin (snd r)) = true) \/
  (0 <= fst r < Z.of_nat (length matches) /\ atEnd (stdin (snd r)) = false).
Proof.
  apply (userAction_while_ind matches avail (fun _ r =>
    (fst r = -1 /\ atEnd (stdin (snd r)) = true) \/
    (0 <= fst r < Z.of_nat (length matches) /\ atEnd (stdin (snd r)) = false)));
    clear p; intros p.
  - intros H. left. now split.
  - intros i H Hi. right. split; [|assumption].
    apply findMatch_Some in Hi as (k & action & -> & Hk & _).
    apply lookup_lt_Some in Hk. simpl. lia.
  - auto.
Qed.

Lemma userAction_range message actions matches p :
  let r := userAction message actions matches p in
  (fst r = -1 /\ atEnd (stdin (snd r)) = true) \/
  (0 <= fst r < Z.of_nat (length matches) /\ atEnd (stdin (snd r)) = false).
Proof. apply (userAction_while_range _ _ (write _ p)). Qed.

End PromptFacts.

(** ** The interactive prompt *)

Module PromptTheorems.
Import QtText TextStream Prompt TextFacts PromptFacts.

(** The choice and the text left unread depend on the unread text only. *)
Lemma userAction_while_stdin matches avail avail' p p' :
  stdin p' = stdin p ->
  fst (userAction_while matches avail' p') = fst (userAction_while matches avail p) /\
  stdin (snd (userAction_while matches avail' p')) =
    stdin (snd (userAction_while matches avail p)).
Proof.
  revert p'.
  apply (userAction_while_ind matches avail (fun p r => forall p',
    stdin p' = stdin p ->
    fst (userAction_while matches avail' p') = fst r /\
    stdin (snd (userAction_while matches avail' p')) = stdin (snd r)));
    clear p.
  - intros p Hend p' Heq. rewrite userAction_while_eq, Heq.
    destruct (readWord (stdin p)) as [input rest]. simpl in *.
    now rewrite Hend.
  - intros p i Hend Hi p' Heq. rewrite userAction_while_eq, Heq.
    destruct (readWord (stdin p)) as [input rest]. simpl in *.
    now rewrite Hend, Hi.
  - intros p r Hend Hi IH p' Heq. rewrite userAction_while_eq, Heq.
    destruct (readWord (stdin p)) as [input rest]. simpl in *.
    rewrite Hend, Hi. now apply IH.
Qed.

(** The loop only adds lines to the output. *)
Lemma userAction_while_stdout matches avail p :
  exists notices : list Line,
    stdout (snd (userAction_while matches avail p)) = (stdout p ++ notices)%list /\
    Forall (fun l => isQuestion l = false) notices.
Proof.
  apply (userAction_while_ind matches avail (fun p r =>
    exists notices : list Line, stdout (snd r) = (stdout p ++ notices)%list /\
                    Forall (fun l => isQuestion l = false) notices)); clear p.
  - intros p _. exists []. simpl. now rewrite app_nil_r.
  - intros p i _ _. exists []. simpl. now rewrite app_nil_r.
  - intros p r _ _ (notices & Hout & Hall). simpl in Hout.
    eexists (_ :: notices). rewrite Hout, <- app_assoc. split; [reflexivity|].
    now constructor.
Qed.

Lemma userAction_while_sound matches avail p :
  let r := userAction_while matches avail p in
  fst r = -1 \/
  exists (i : nat) action alias skipped input,
    fst r = Z.of_nat i /\ matches !! i = Some action /\
    In alias (split "|" action) /\ clean input = clean alias /\
    stdin p = skipped +:+ input +:+ stdin (snd r).
Proof.
  apply (userAction_while_ind matches avail (fun p r =>
    fst r = -1 \/
    exists (i : nat) action alias skipped input,
      fst r = Z.of_nat i /\ matches !! i = Some action /\
      In alias (split "|" action) /\ clean input = clean alias /\
      stdin p = skipped +:+ input +:+ stdin (snd r))); clear p.
  - intros p _. now left.
  - intros p i _ Hi. right.
    apply findMatch_Some in Hi as (k & action & -> & Hk & Hm & _).
    apply matchesAction_spec in Hm as (alias & Hin & Hclean).
    destruct (readWord_split (stdin p)) as (ws & Hsplit & _).
    exists k, action, alias, ws, (fst (readWord (stdin p))).
    repeat split; auto.
  - intros p r _ _ [Hr|(i & action & alias & skipped & input & H)]; [now left|].
    right. destruct H as (Hi & Hk & Hin & Hclean & Hsplit). simpl in Hsplit.
    destruct (readWord_split (stdin p)) as (ws & Hp & _).
    exists i, action, alias,
      (ws +:+ fst (readWord (stdin p)) +:+ skipped), input.
    repeat split; auto.
    rewrite Hp at 1. rewrite Hsplit. now rewrite !append_assoc.
Qed.

(** C7. The prompt matches its input without regard to case and to white
    space: two words that differ in case only, whatever white space is
    around them, get the same choice, or the notice both. It never
    returns an index unless the alias group at that index holds the
    trimmed, lower-cased input, and it answers input that matches no
    alias of any group with the unknown-response notice and a new read,
    not with a choice. (A read that leaves the input exhausted is the
    matter of C8: it returns -1 before any matching.) *)
Theorem userAction_matching message actions matches (p : Process) :
  let availableActions := join " | " actions in
  let r := userAction message actions matches p in
  (fst r = -1 \/
   exists (i : nat) action alias skipped input,
     fst r = Z.of_nat i /\ matches !! i = Some action /\
     In alias (split "|" action) /\
     toLower (trimmed input) = toLower (trimmed alias) /\
     stdin p = skipped +:+ input +:+ stdin (snd r))
  /\
  (forall ws input input' c rest,
     allSpace ws = true -> isSpace c = true ->
     noSpace input = true -> input <> "" ->
     noSpace input' = true -> input' <> "" ->
     toLower input = toLower input' ->
     let r1 := userAction message actions matches
                 (set_stdin (ws +:+ input +:+ String c rest) p) in
     let r2 := userAction message actions matches
                 (set_stdin (input' +:+ String c rest) p) in
     fst r1 = fst r2 /\ stdin (snd r1) = stdin (snd r2))
  /\
  (forall ws ws' input input' c c' rest rest',
     allSpace ws = true -> allSpace ws' = true ->
     isSpace c = true -> isSpace c' = true ->
     noSpace input = true -> input <> "" ->
     noSpace input' = true -> input' <> "" ->
     toLower input = toLower input' ->
     let r1 := userAction message actions matches
                 (set_stdin (ws +:+ input +:+ String c rest) p) in
     let r2 := userAction message actions matches
                 (set_stdin (ws' +:+ input' +:+ String c' rest') p) in
     (0 <= fst r1 /\ fst r1 = fst r2 /\
      stdin (snd r1) = String c rest /\ stdin (snd r2) = String c' rest') \/
     (In (UnknownResponse input availableActions) (stdout (snd r1)) /\
      In (UnknownResponse input' availableActions) (stdout (snd r2))))
  /\
  (forall input rest,
     readWord (stdin p) = (input, rest) -> atEnd rest = false ->
     (forall action alias, In action matches -> In alias (split "|" action) ->
        toLower (trimmed input) <> toLower (trimmed alias)) ->
     r = userAction_while matches availableActions
           (write (UnknownResponse input availableActions)
              (set_stdin rest (write (Asked message availableActions) p))) /\
     In (UnknownResponse input availableActions) (stdout (snd r))).
Proof.
  intros avail r. split; [|split; [|split]].
  - apply (userAction_while_sound matches avail (write (Asked message avail) p)).
  - intros ws input input' c rest Hws Hc Hin Hne Hin' Hne' Hlow r1 r2.
    subst r1 r2. unfold userAction. fold avail.
    rewrite (userAction_while_eq _ _ (write _ (set_stdin (ws +:+ _) p))).
    rewrite (userAction_while_eq _ _ (write _ (set_stdin (input' +:+ _) p))).
    simpl stdin.
    rewrite (readWord_word ws input c rest Hws Hin Hne Hc).
    pose proof (readWord_word "" input' c rest eq_refl Hin' Hne' Hc) as Hread'.
    rewrite append_empty_l in Hread'. rewrite Hread'.
    simpl atEnd. cbv iota.
    assert (clean input = clean input') as ->.
    { unfold clean. now rewrite !trimmed_noSpace. }
    destruct (findMatch (clean input') matches 0); [now split|].
    apply userAction_while_stdin. reflexivity.
  - intros ws ws' input input' c c' rest rest' Hws Hws' Hc Hc' Hin Hne Hin' Hne'
      Hlow r1 r2.
    subst r1 r2. unfold userAction. fold avail.
    rewrite (userAction_while_eq _ _ (write _ (set_stdin (ws +:+ _) p))).
    rewrite (userAction_while_eq _ _ (write _ (set_stdin (ws' +:+ _) p))).
    simpl stdin.
    rewrite (readWord_word ws input c rest Hws Hin Hne Hc).
    rewrite (readWord_word ws' input' c' rest' Hws' Hin' Hne' Hc').
    simpl atEnd. cbv iota.
    assert (clean input = clean input') as ->.
    { unfold clean. now rewrite !trimmed_noSpace. }
    destruct (findMatch (clean input') matches 0) as [i|] eqn:Hi.
    + left. apply findMatch_Some in Hi as (k & _ & -> & _). simpl.
      repeat split; auto. lia.
    + right. split.
      * destruct (userAction_while_stdout matches avail
                    (write (UnknownResponse input avail)
                       (set_stdin (String c rest)
                          (write (Asked message avail)
                             (set_stdin (ws +:+ input +:+ String c rest) p)))))
          as (notices & -> & _).
        simpl. apply in_or_app. left. apply in_or_app. right. now left.
      * destruct (userAction_while_stdout matches avail
                    (write (UnknownResponse input' avail)
                       (set_stdin (String c' rest')
                          (write (Asked message avail)
                             (set_stdin (ws' +:+ input' +:+ String c' rest') p)))))
          as (notices & -> & _).
        simpl. apply in_or_app. left. apply in_or_app. right. now left.
  - intros input rest Hread Hrest Hno.
    assert (findMatch (clean input) matches 0 = None) as Hnone.
    { apply findMatch_None, List.Forall_forall. intros action Haction.
      destruct (matchesAction (clean input) action) eqn:Hm; [|reflexivity].
      apply matchesAction_spec in Hm as (alias & Halias & Heq).
      exfalso. exact (Hno action alias Haction Halias Heq). }
    assert (r = userAction_while matches avail
                  (write (UnknownResponse input avail)
                     (set_stdin rest (write (Asked message avail) p)))) as Hr.
    { subst r. unfold userAction. fold avail.
      rewrite userAction_while_eq at 1. simpl stdin.
      now rewrite Hread, Hrest, Hnone. }
    split; [exact Hr|]. rewrite Hr.
    destruct (userAction_while_stdout matches avail
                (write (UnknownResponse input avail)
                   (set_stdin rest (write (Asked message avail) p))))
      as (notices & -> & _).
    simpl. apply in_or_app. left. apply in_or_app. right. now left.
Qed.

(** C8. The prompt returns -1 at once when a read leaves the input
    exhausted, whatever word that read took, and otherwise returns the
    index of the matching choice at once when the word it read matches
    an alias: the index of the first group that holds the word, with
    nothing written and nothing more read. This holds at its first read
    and at every later one, and -1 is returned in no other case. *)
Theorem userAction_returns_at_once message actions matches (p : Process) :
  let availableActions := join " | " actions in
  let asked := write (Asked message availableActions) p in
  let r := userAction message actions matches p in
  (atEnd (snd (readWord (stdin p))) = true ->
     r = (-1, set_stdin (snd (readWord (stdin p))) asked))
  /\
  (forall (i : nat) action,
     atEnd (snd (readWord (stdin p))) = false ->
     matches !! i = Some action ->
     matchesAction (clean (fst (readWord (stdin p)))) action = true ->
     (forall j other, (j < i)%nat -> matches !! j = Some other ->
        matchesAction (clean (fst (readWord (stdin p)))) other = false) ->
     r = (Z.of_nat i, set_stdin (snd (readWord (stdin p))) asked))
  /\
  (forall q,
     atEnd (snd (readWord (stdin q))) = true ->
     userAction_while matches availableActions q =
       (-1, set_stdin (snd (readWord (stdin q))) q))
  /\
  (forall q (i : nat) action,
     atEnd (snd (readWord (stdin q))) = false ->
     matches !! i = Some action ->
     matchesAction (clean (fst (readWord (stdin q)))) action = true ->
     (forall j other, (j < i)%nat -> matches !! j = Some other ->
        matchesAction (clean (fst (readWord (stdin q)))) other = false) ->
     userAction_while matches availableActions q =
       (Z.of_nat i, set_stdin (snd (readWord (stdin q))) q))
  /\
  (fst r = -1 <-> atEnd (stdin (snd r)) = true).
Proof.
  intros avail asked r.
  assert (Hcancel : forall q,
    atEnd (snd (readWord (stdin q))) = true ->
    userAction_while matches avail q =
      (-1, set_stdin (snd (readWord (stdin q))) q)).
  { intros q Hend. rewrite userAction_while_eq.
    destruct (readWord (stdin q)) as [input rest]. simpl in *.
    now rewrite Hend. }
  assert (Hmatch : forall q (i : nat) action,
    atEnd (snd (readWord (stdin q))) = false ->
    matches !! i = Some action ->
    matchesAction (clean (fst (readWord (stdin q)))) action = true ->
    (forall j other, (j < i)%nat -> matches !! j = Some other ->
       matchesAction (clean (fst (readWord (stdin q)))) other = false) ->
    userAction_while matches avail q =
      (Z.of_nat i, set_stdin (snd (readWord (stdin q))) q)).
  { intros q i action Hend Hi Hm Hfirst. rewrite userAction_while_eq.
    destruct (readWord (stdin q)) as [input rest]. simpl in *.
    rewrite Hend.
    assert (findMatch (clean input) matches 0 = Some (Z.of_nat i)) as ->;
      [|reflexivity].
    apply findMatch_Some. exists i, action. repeat split; auto. }
  repeat split.
  - intros Hend. apply (Hcancel asked Hend).
  - intros i action Hend Hi Hm Hfirst. now apply (Hmatch asked i action).
  - exact Hcancel.
  - exact Hmatch.
  - intros Hr. destruct (userAction_range message actions matches p)
      as [[_ H]|[H _]]; [exact H|]. fold r in H. lia.
  - intros Hr. destruct (userAction_range message actions matches p)
      as [[H _]|[_ H]]; [exact H|]. fold r in H. congruence.
Qed.

End PromptTheorems.

(** ** The line reader *)

Module LineReaderTheorems.
Import LineReader SimpleLineReader ExampleStore.


End LineReaderTheorems.

(** ** requestEntriesUnlock *)

Module UnlockTheorems.
Import QtText TextStream Prompt TextFacts PromptFacts.

Lemma AuthDecision_eqb_eq a b : AuthDecision_eqb a b = true <-> a = b.
Proof. destruct a, b; simpl; split; congruence. Qed.

Lemma value_insert (d : gmap nat AuthDecision) k v e :
  value (<[k := v]> d) e = if decide (k = e) then v else value d e.
Proof.
  unfold value. rewrite lookup_insert. now destruct (decide (k = e)).
Qed.

Lemma assignAll_In v entries d e :
  In e entries -> assignAll v entries d !! e = Some v.
Proof.
  unfold assignAll. revert d. induction entries as [|a l IH]; intros d; [easy|].
  simpl. destruct (in_dec Nat.eq_dec e l) as [Hl|Hl]; [intros _; now apply IH|].
  intros [->|H]; [|contradiction].
  clear IH. assert (forall d' : gmap nat AuthDecision, d' !! e = Some v ->
    fold_left (fun d e => <[e := v]> d) l d' !! e = Some v) as Hkeep.
  { clear. induction l as [|a l IH]; intros d' Hd'; [exact Hd'|].
    simpl. apply IH. rewrite lookup_insert. now destruct (decide (a = e)). }
  apply Hkeep. apply lookup_insert_eq.
Qed.

Lemma assignAll_notIn v entries d e :
  ~ In e entries -> assignAll v entries d !! e = d !! e.
Proof.
  unfold assignAll. revert d. induction entries as [|a l IH]; intros d H; [easy|].
  simpl. rewrite IH; [|intros ?; apply H; now right].
  apply lookup_insert_ne. intros ->. apply H. now left.
Qed.

Lemma rememberDecisions_keep dec entries d e :
  d !! e = Some dec -> rememberDecisions dec entries d !! e = Some dec.
Proof.
  unfold rememberDecisions. revert d.
  induction entries as [|a l IH]; intros d Hd; [exact Hd|].
  simpl. apply IH.
  destruct (negb (AuthDecision_eqb (value d a) Undecided)); [|exact Hd].
  rewrite lookup_insert. now destruct (decide (a = e)).
Qed.

Lemma rememberDecisions_Undecided dec entries d e :
  value d e = Undecided -> rememberDecisions dec entries d !! e = d !! e.
Proof.
  unfold rememberDecisions. revert d.
  induction entries as [|a l IH]; intros d Hd; [reflexivity|].
  simpl. destruct (AuthDecision_eqb (value d a) Undecided) eqn:Ha; simpl.
  - now apply IH.
  - assert (a <> e) as Hne.
    { intros ->. apply AuthDecision_eqb_eq in Hd. congruence. }
    rewrite IH.
    + now apply lookup_insert_ne.
    + rewrite value_insert. now destruct (decide (a = e)).
Qed.

Lemma rememberDecisions_In dec entries d e :
  In e entries -> value d e <> Undecided ->
  rememberDecisions dec entries d !! e = Some dec.
Proof.
  revert d. induction entries as [|a l IH]; intros d Hin Hd; [easy|].
  unfold rememberDecisions. simpl.
  destruct (decide (a = e)) as [->|Hne].
  - assert (AuthDecision_eqb (value d e) Undecided = false) as ->.
    { destruct (AuthDecision_eqb (value d e) Undecided) eqn:H; [|reflexivity].
      apply AuthDecision_eqb_eq in H. contradiction. }
    simpl. apply rememberDecisions_keep. apply lookup_insert_eq.
  - destruct Hin as [?|Hin]; [contradiction|].
    apply (IH _ Hin).
    destruct (negb (AuthDecision_eqb (value d a) Undecided)); [|exact Hd].
    rewrite value_insert. now destruct (decide (a = e)).
Qed.

Section WithTranslation.
Variable tr : string -> string.

Lemma askAction_range p :
  let r := askAction tr p in
  (fst r = -1 /\ atEnd (stdin (snd r)) = true) \/
  (0 <= fst r < 3 /\ atEnd (stdin (snd r)) = false).
Proof. apply (userAction_range ChooseAction _ [_; _; _] p). Qed.

Lemma askEntry_range app entry p :
  let r := askEntry tr app entry p in
  (fst r = -1 /\ atEnd (stdin (snd r)) = true) \/
  (0 <= fst r < 2 /\ atEnd (stdin (snd r)) = false).
Proof. apply (userAction_range (AllowAccess app entry) _ [_; _] p). Qed.

Lemma askRemember_range actionStr app warning p :
  let r := askRemember tr actionStr app warning p in
  (fst r = -1 /\ atEnd (stdin (snd r)) = true) \/
  (0 <= fst r < 2 /\ atEnd (stdin (snd r)) = false).
Proof. apply (userAction_range (RememberAction _ _ _) _ [_; _] p). Qed.

(** Under "Allow All" and "Deny All" the first loop asks nothing. *)
Lemma decideEntries_all app action decision entries d p :
  action <> AllowSelected ->
  decideEntries tr app action decision entries d p =
    (true, assignAll decision entries d, p).
Proof.
  intros Hne. unfold assignAll. revert d.
  induction entries as [|e l IH]; intros d; [reflexivity|].
  simpl. destruct action; simpl; try congruence; apply IH.
Qed.

(** The first loop writes [Undecided] and [decision] only, and it is
    left early only with the input exhausted. *)
Lemma decideEntries_cancel app action decision entries d p :
  let r := decideEntries tr app action decision entries d p in
  (forall e, isDurable (value d e) = false) ->
  isDurable decision = false ->
  (forall e, isDurable (value (snd (fst r)) e) = false) /\
  (fst (fst r) = false -> atEnd (stdin (snd r)) = true).
Proof.
  revert d p. induction entries as [|e l IH]; intros d p r Hd Hdec.
  - split; [exact Hd|discriminate].
  - subst r. simpl.
    assert (forall v, isDurable v = false ->
              forall e', isDurable (value (<[e := v]> d) e') = false) as Hins.
    { intros v Hv e'. rewrite value_insert. now destruct (decide (e = e')). }
    destruct (Action_eqb action AllowSelected).
    + pose proof (askEntry_range app e p) as Hr.
      destruct (askEntry tr app e p) as [choice p1]. simpl in Hr.
      destruct (choice =? -1) eqn:Hc.
      * simpl. split; [exact Hd|]. intros _. destruct Hr as [[_ H]|[H _]]; [exact H|lia].
      * apply IH; [|exact Hdec]. apply Hins. now destruct (choice =? 0).
    + apply IH; [|exact Hdec]. now apply Hins.
Qed.

(** The first loop leaves the entries that are not in the list alone. *)
Lemma decideEntries_notIn app action decision entries d p e :
  ~ In e entries ->
  snd (fst (decideEntries tr app action decision entries d p)) !! e = d !! e.
Proof.
  revert d p. induction entries as [|a l IH]; intros d p Hnot; [reflexivity|].
  assert (a <> e) as Hne by (intros ->; apply Hnot; now left).
  assert (~ In e l) as Hl by (intros ?; apply Hnot; now right).
  simpl. destruct (Action_eqb action AllowSelected).
  - destruct (askEntry tr app a p) as [choice p1].
    destruct (choice =? -1); [reflexivity|].
    rewrite (IH _ _ Hl). now apply lookup_insert_ne.
  - rewrite (IH _ _ Hl). now apply lookup_insert_ne.
Qed.

(** Under "Allow Selected" the last answer given for an entry decides
    what the first loop writes for it. *)
Lemma decideEntries_selected app decision entries d p i e c :
  entries !! i = Some e ->
  (forall j, (i < j)%nat -> entries !! j <> Some e) ->
  answers tr app entries p !! i = Some c -> c <> -1 ->
  snd (fst (decideEntries tr app AllowSelected decision entries d p)) !! e =
    Some (if c =? 0 then decision else Undecided).
Proof.
  revert d p i. induction entries as [|a l IH]; intros d p i Hi Hlast Hc Hne;
    [discriminate|].
  simpl in *. destruct (askEntry tr app a p) as [c0 p1].
  destruct i as [|i]; simpl in *.
  - injection Hi as ->. injection Hc as ->.
    apply Z.eqb_neq in Hne. rewrite Hne.
    rewrite decideEntries_notIn.
    + rewrite lookup_insert_eq. now destruct (c =? 0).
    + intros Hin. apply (proj2 (list_elem_of_In _ _)) in Hin.
      apply list_elem_of_lookup in Hin as [j Hj].
      apply (Hlast (S j)); [lia|exact Hj].
  - destruct (c0 =? -1); [discriminate|].
    apply (IH _ _ i Hi); auto.
    intros j Hj. apply (Hlast (S j)). lia.
Qed.

(** The first loop runs to its end exactly when no answer is -1. *)
Lemma decideEntries_completed app decision entries d p :
  fst (fst (decideEntries tr app AllowSelected decision entries d p)) = true <->
  ~ In (-1) (answers tr app entries p).
Proof.
  revert d p. induction entries as [|a l IH]; intros d p; simpl; [easy|].
  destruct (askEntry tr app a p) as [c0 p1].
  destruct (c0 =? -1) eqn:Hc; simpl.
  - apply Z.eqb_eq in Hc. split; [discriminate|]. intros H. destruct H. now left.
  - apply Z.eqb_neq in Hc. rewrite IH. split.
    + intros H [?|?]; [congruence|contradiction].
    + intros H ?. apply H. now right.
Qed.

(** C2. When the input is exhausted at the choice of the action, at a
    question about an entry or at the question whether to remember,
    requestEntriesUnlock returns false; whenever it returns false,
    [forFutureEntries] is [Undecided] and [decisions] holds no durable
    grant or denial for any entry; and it returns false exactly when
    it returns with the input exhausted. Exhausted at the choice of
    the action, [decisions] is as it was passed. The caller passes
    [decisions] without durable values. *)
Theorem unlock_cancelled client name entries decisions forFutureEntries p :
  (forall e, isDurable (value decisions e) = false) ->
  let r := requestEntriesUnlock tr client name entries decisions
             forFutureEntries p in
  let first := askAction tr (announceUnlock client entries (LineReader.pause p)) in
  (fst first = -1 ->
     r = ((false, decisions, Undecided), LineReader.restore (snd first)))
  /\
  (fst first = 2 -> In (-1) (answers tr client entries (snd first)) ->
     returned r = false)
  /\
  (forall action actionStr decision,
     chooseAction tr (fst first) = Some (action, actionStr, decision) ->
     let selected :=
       decideEntries tr client action decision entries decisions (snd first) in
     fst (fst selected) = true ->
     fst (askRemember tr actionStr client (warningFor tr action) (snd selected))
       = -1 ->
     returned r = false)
  /\
  (returned r = false ->
     forFutureEntriesOf r = Undecided /\
     forall e, isDurable (value (decisionsOf r) e) = false)
  /\
  (returned r = false <-> atEnd (stdin (snd r)) = true).
Proof.
  intros Hd r first.
  assert (Hrestore : forall q, stdin (LineReader.restore q) = stdin q).
  { intros q. unfold LineReader.restore. now destruct (backend q). }
  split; [|split; [|split]].
  - intros Hfirst. subst r.
    unfold requestEntriesUnlock, LineReader.LineReaderGuard,
      requestEntriesUnlock_body.
    fold first. destruct first as [choice p1]. simpl in Hfirst. now subst choice.
  - intros Hfirst Hin. subst r.
    unfold requestEntriesUnlock, LineReader.LineReaderGuard,
      requestEntriesUnlock_body, returned.
    fold first. destruct first as [choice p1]. simpl in Hfirst, Hin. subst choice.
    simpl.
    pose proof (decideEntries_completed client AllowedOnce entries decisions p1)
      as Hcompleted.
    destruct (decideEntries tr client AllowSelected AllowedOnce entries decisions p1)
      as [[completed d1] p2]. simpl in Hcompleted.
    destruct completed; [|reflexivity].
    now destruct (proj1 Hcompleted eq_refl).
  - intros action actionStr decision Hchoose selected Hcompleted Hrem. subst r.
    unfold requestEntriesUnlock, LineReader.LineReaderGuard,
      requestEntriesUnlock_body, returned.
    fold first. destruct first as [choice p1]. simpl in Hchoose, selected.
    rewrite Hchoose. fold selected.
    destruct selected as [[completed d1] p2]. simpl in Hcompleted, Hrem.
    subst completed.
    destruct (askRemember tr actionStr client (warningFor tr action) p2)
      as [answer p3]. simpl in Hrem. now subst answer.
  - subst r first.
    unfold requestEntriesUnlock, LineReader.LineReaderGuard,
      requestEntriesUnlock_body, returned, decisionsOf, forFutureEntriesOf.
    pose proof (askAction_range (announceUnlock client entries (LineReader.pause p)))
      as Hr.
    destruct (askAction tr (announceUnlock client entries (LineReader.pause p)))
      as [choice p1]. simpl in Hr.
    unfold chooseAction.
    destruct Hr as [[-> Hend]|[Hc Hend]].
    { simpl. rewrite Hrestore. repeat split; auto. }
    assert (exists action actionStr decision,
      (if choice =? 0 then Some (AllowAll, tr "Allow All", AllowedOnce)
       else if choice =? 1 then Some (DenyAll, tr "Deny All", DeniedOnce)
       else if choice =? 2 then Some (AllowSelected, tr "Allow Selected", AllowedOnce)
       else None) = Some (action, actionStr, decision) /\
      isDurable decision = false) as (action & actionStr & decision & -> & Hdec).
    { destruct (choice =? 0) eqn:H0; [now eexists _, _, _|].
      destruct (choice =? 1) eqn:H1; [now eexists _, _, _|].
      destruct (choice =? 2) eqn:H2; [now eexists _, _, _|]. lia. }
    pose proof (decideEntries_cancel client action decision entries decisions p1
                  Hd Hdec) as [Hdur Hcancel].
    destruct (decideEntries tr client action decision entries decisions p1)
      as [[completed d1] p2]. simpl in Hdur, Hcancel.
    destruct completed.
    2:{ simpl. rewrite Hrestore. repeat split; auto. }
    pose proof (askRemember_range actionStr client (warningFor tr action) p2) as Hq.
    destruct (askRemember tr actionStr client (warningFor tr action) p2)
      as [answer p3]. simpl in Hq.
    destruct Hq as [[-> Hend3]|[Ha Hend3]].
    { simpl. rewrite Hrestore. repeat split; auto. }
    destruct (answer =? 0) eqn:H0.
    { destruct action; simpl; rewrite Hrestore;
        repeat split; try congruence; lia. }
    destruct (answer =? 1) eqn:H1; [|lia].
    simpl. rewrite Hrestore. repeat split; try congruence; lia.
Qed.

(** C3. "Allow All" and then "remember: yes" give every entry the
    durable decision [Allowed] and forFutureEntries = [Allowed]; "Allow
    All" and then "remember: no" give every entry [AllowedOnce] and
    forFutureEntries = [Undecided]; "Deny All" and then "remember: yes"
    give every entry the durable decision [Denied] and
    forFutureEntries = [Denied] (and with "remember: no", [DeniedOnce]
    and [Undecided]). This holds for every list of entries, the empty
    one included. *)
Theorem unlock_all client name entries decisions forFutureEntries p :
  let r := requestEntriesUnlock tr client name entries decisions
             forFutureEntries p in
  let first := askAction tr (announceUnlock client entries (LineReader.pause p)) in
  let remember action actionStr :=
    askRemember tr (tr actionStr) client (warningFor tr action) (snd first) in
  (fst first = 0 -> fst (remember AllowAll "Allow All") = 0 ->
     returned r = true /\ forFutureEntriesOf r = Allowed /\
     forall e, In e entries -> decisionsOf r !! e = Some Allowed)
  /\
  (fst first = 0 -> fst (remember AllowAll "Allow All") = 1 ->
     returned r = true /\ forFutureEntriesOf r = Undecided /\
     forall e, In e entries -> decisionsOf r !! e = Some AllowedOnce)
  /\
  (fst first = 1 -> fst (remember DenyAll "Deny All") = 0 ->
     returned r = true /\ forFutureEntriesOf r = Denied /\
     forall e, In e entries -> decisionsOf r !! e = Some Denied)
  /\
  (fst first = 1 -> fst (remember DenyAll "Deny All") = 1 ->
     returned r = true /\ forFutureEntriesOf r = Undecided /\
     forall e, In e entries -> decisionsOf r !! e = Some DeniedOnce).
Proof.
  intros r first remember. subst r remember.
  unfold requestEntriesUnlock, LineReader.LineReaderGuard,
    requestEntriesUnlock_body, returned, decisionsOf, forFutureEntriesOf.
  fold first. destruct first as [choice p1]. simpl fst. simpl snd.
  assert (Hvalue : forall v e, In e entries -> v <> Undecided ->
            value (assignAll v entries decisions) e <> Undecided).
  { intros v e He Hv. unfold value. now rewrite (assignAll_In v _ _ _ He). }
  repeat split; intros; subst choice; simpl;
    rewrite decideEntries_all by congruence;
    match goal with
    | H : fst ?a = _ |- context [let (_, _) := ?a in _] =>
        destruct a as [answer p2]; simpl in H; subst answer; simpl
    end;
    try reflexivity;
    try (apply rememberDecisions_In; [assumption|now apply Hvalue]);
    now apply assignAll_In.
Qed.

(** C4. Under "Allow Selected" an entry answered "no" gets the decision
    [Undecided], whatever follows, and an entry answered "yes" gets
    [AllowedOnce] when the answer to the remember question is "no"; the
    answer that counts for an entry listed more than once is the last
    one. In particular, for three entries answered yes, no, yes and
    "remember: no" the decisions are [AllowedOnce], [Undecided],
    [AllowedOnce] and forFutureEntries is [Undecided]. *)
Theorem unlock_selected client name entries decisions forFutureEntries p :
  let r := requestEntriesUnlock tr client name entries decisions
             forFutureEntries p in
  let first := askAction tr (announceUnlock client entries (LineReader.pause p)) in
  let asked := answers tr client entries (snd first) in
  let selected :=
    decideEntries tr client AllowSelected AllowedOnce entries decisions
      (snd first) in
  let remember :=
    askRemember tr (tr "Allow Selected") client (warningFor tr AllowSelected)
      (snd selected) in
  fst first = 2 ->
  (forall i e,
     entries !! i = Some e ->
     (forall j, (i < j)%nat -> entries !! j <> Some e) ->
     asked !! i = Some 1 ->
     decisionsOf r !! e = Some Undecided)
  /\
  (~ In (-1) asked -> fst remember = 1 ->
     returned r = true /\ forFutureEntriesOf r = Undecided /\
     forall i e,
       entries !! i = Some e ->
       (forall j, (i < j)%nat -> entries !! j <> Some e) ->
       asked !! i = Some 0 ->
       decisionsOf r !! e = Some AllowedOnce)
  /\
  (forall e1 e2 e3,
     entries = [e1; e2; e3] -> e1 <> e2 -> e1 <> e3 -> e2 <> e3 ->
     asked = [0; 1; 0] -> fst remember = 1 ->
     returned r = true /\ forFutureEntriesOf r = Undecided /\
     decisionsOf r !! e1 = Some AllowedOnce /\
     decisionsOf r !! e2 = Some Undecided /\
     decisionsOf r !! e3 = Some AllowedOnce).
Proof.
  intros r first asked selected remember Hfirst.
  assert (HA : forall i e,
     entries !! i = Some e ->
     (forall j, (i < j)%nat -> entries !! j <> Some e) ->
     asked !! i = Some 1 ->
     decisionsOf r !! e = Some Undecided).
  { intros i e Hi Hlast Hno.
    pose proof (decideEntries_selected client AllowedOnce entries decisions
                  (snd first) i e 1 Hi Hlast Hno ltac:(lia)) as Hd1.
    simpl in Hd1. subst r.
    unfold requestEntriesUnlock, LineReader.LineReaderGuard,
      requestEntriesUnlock_body, decisionsOf.
    fold first. destruct first as [choice p1]. simpl in *. subst choice.
    simpl. fold selected. fold selected in Hd1.
    destruct selected as [[completed d1] p2]. simpl in *.
    destruct completed; [|exact Hd1].
    destruct (askRemember tr (tr "Allow Selected") client
                (warningFor tr AllowSelected) p2) as [answer p3].
    destruct (answer =? 0); [|destruct (answer =? 1); exact Hd1].
    simpl. rewrite rememberDecisions_Undecided; [exact Hd1|].
    unfold value. now rewrite Hd1. }
  assert (HB : ~ In (-1) asked -> fst remember = 1 ->
     returned r = true /\ forFutureEntriesOf r = Undecided /\
     forall i e,
       entries !! i = Some e ->
       (forall j, (i < j)%nat -> entries !! j <> Some e) ->
       asked !! i = Some 0 ->
       decisionsOf r !! e = Some AllowedOnce).
  { intros Hall Hrem.
    apply (decideEntries_completed client AllowedOnce entries decisions) in Hall.
    assert (Hyes : forall i e,
      entries !! i = Some e ->
      (forall j, (i < j)%nat -> entries !! j <> Some e) ->
      asked !! i = Some 0 ->
      snd (fst selected) !! e = Some AllowedOnce).
    { intros i e Hi Hlast Hyes.
      apply (decideEntries_selected client AllowedOnce entries decisions
               (snd first) i e 0 Hi Hlast Hyes). lia. }
    subst r.
    unfold requestEntriesUnlock, LineReader.LineReaderGuard,
      requestEntriesUnlock_body, returned, decisionsOf, forFutureEntriesOf.
    subst remember. fold first. destruct first as [choice p1].
    simpl in *. subst choice. simpl. fold selected. fold selected in Hall.
    destruct selected as [[completed d1] p2]. simpl in *. subst completed.
    destruct (askRemember tr (tr "Allow Selected") client
                (warningFor tr AllowSelected) p2) as [answer p3].
    simpl in Hrem. subst answer. simpl. repeat split; auto. }
  split; [exact HA|]. split; [exact HB|].
  intros e1 e2 e3 Hentries H12 H13 H23 Hasked Hrem.
  destruct HB as (Hret & Hfut & Hyes); [now rewrite Hasked; simpl; lia|exact Hrem|].
  rewrite Hentries in HA, Hyes. rewrite Hasked in HA, Hyes.
  assert (forall (a b : nat) i j (l : list nat),
            l = [e1; e2; e3] -> l !! i = Some a -> l !! j = Some b ->
            (i < j)%nat -> a <> b) as Hdistinct.
  { intros a b i j l -> Ha Hb Hij.
    destruct i as [|[|[|i]]], j as [|[|[|j]]]; simpl in Ha, Hb;
      try discriminate; try lia; congruence. }
  repeat split; auto.
  - apply (Hyes 0%nat e1 eq_refl); [|reflexivity].
    intros j Hj He. now apply (Hdistinct e1 e1 0%nat j _ eq_refl eq_refl He).
  - apply (HA 1%nat e2 eq_refl); [|reflexivity].
    intros j Hj He. now apply (Hdistinct e2 e2 1%nat j _ eq_refl eq_refl He).
  - apply (Hyes 2%nat e3 eq_refl); [|reflexivity].
    intros j Hj He. now apply (Hdistinct e3 e3 2%nat j _ eq_refl eq_refl He).
Qed.

End WithTranslation.

End UnlockTheorems.

(** ** requestEntriesRemove *)

Module RemoveTheorems.
Import QtText TextStream Prompt TextFacts PromptFacts.

Section WithStore.
Variable tr : string -> string.
Context {Store : Type} `{EntryStore Store}.

Lemma askReferences_range entry references (w : World Store) :
  let r := askReferences tr entry references w in
  fst r = -1 \/ 0 <= fst r < 3.
Proof.
  unfold askReferences, onProcess.
  pose proof (userAction_range ReplaceReferences
    [tr "[O]verwrite references with values";
     tr "[S]kip this entry"; tr "[D]elete anyway"]
    [tr "o|overwrite"; tr "s|skip"; tr "d|delete"]
    (write (EntryHasReferences entry (length references)) (process w))) as Hr.
  destruct (userAction _ _ _ _) as [c p]. simpl in *.
  destruct Hr as [[? _]|[? _]]; [now left|now right].
Qed.

(** The prompt leaves the store and the record of calls alone. *)
Lemma askReferences_calls entry references (w : World Store) :
  calls (snd (askReferences tr entry references w)) = calls w /\
  database (snd (askReferences tr entry references w)) = database w.
Proof.
  unfold askReferences, onProcess.
  now destruct (userAction _ _ _ _) as [c p].
Qed.

(** A run of calls: the record grows by them and the store takes them
    in their order. *)
Lemma calls_fold {A} (f : A -> StoreCall) (l : list A) (w : World Store) :
  let w' := fold_left (fun w x => call (f x) w) l w in
  calls w' = (calls w ++ map f l)%list /\
  database w' = fold_left (@applyCall Store _) (map f l) (database w).
Proof.
  revert w. induction l as [|x l IH]; intros w; simpl.
  - now rewrite app_nil_r.
  - destruct (IH (call (f x) w)) as [-> ->]. simpl.
    now rewrite <- List.app_assoc.
Qed.

Lemma removeEntries_calls (permanent : bool) selected (w : World Store) :
  let f := if permanent then DeleteEntry else RecycleEntry in
  calls (removeEntries permanent selected w) = (calls w ++ map f selected)%list /\
  database (removeEntries permanent selected w) =
    fold_left (@applyCall Store _) (map f selected) (database w).
Proof.
  unfold removeEntries. destruct permanent.
  - apply (calls_fold DeleteEntry).
  - apply (calls_fold RecycleEntry).
Qed.

Lemma removeAll_In e l x : In x (removeAll e l) <-> In x l /\ x <> e.
Proof.
  unfold removeAll. rewrite List.filter_In, Bool.negb_true_iff, Nat.eqb_neq.
  reflexivity.
Qed.

(** The reference set left for the prompt: the references that are not
    members of the cohort. *)
Lemma ignoreCohort_In entries references x :
  In x (ignoreCohort entries references) <->
  In x references /\ ~ In x entries.
Proof.
  unfold ignoreCohort. revert references.
  induction entries as [|a l IH]; intros references; simpl.
  - tauto.
  - rewrite IH, removeAll_In. intuition congruence.
Qed.

(** The loop body in terms of the answer at its prompt. *)
Lemma resolveReferences_answer entries e (w : World Store) :
  match answerAt tr entries true e w with
  | None => resolveReferences tr entries true e w = (Marked, w)
  | Some c =>
      exists w1,
        calls w1 = calls w /\ database w1 = database w /\
        (c = -1 \/ 0 <= c < 3) /\
        resolveReferences tr entries true e w =
          if c =? 0 then
            (Marked,
             fold_left (fun w ref => call (ReplaceReferencesWithValues ref e) w)
               (ignoreCohort entries (referencesRecursive (database w) e)) w1)
          else if c =? 1 then (Skipped, w1)
          else if c =? 2 then (Marked, w1)
          else (Cancelled, w1)
  end.
Proof.
  unfold answerAt, resolveReferences. simpl andb.
  destruct (isEmpty (referencesRecursive (database w) e)); simpl negb; cbv iota;
    [reflexivity|].
  pose proof (askReferences_range e
    (ignoreCohort entries (referencesRecursive (database w) e)) w) as Hr.
  pose proof (askReferences_calls e
    (ignoreCohort entries (referencesRecursive (database w) e)) w) as [Hc Hd].
  destruct (askReferences tr e
    (ignoreCohort entries (referencesRecursive (database w) e)) w)
    as [choice w1]. simpl in *.
  exists w1. repeat split; auto.
Qed.

Lemma selectEntries_spec entries remaining selected (w : World Store) :
  Forall (fun ev => answerAt tr entries true (fst ev) (snd ev) <> Some (-1))
    (combine remaining (visits tr entries true remaining w)) ->
  exists w',
    selectEntries tr entries true remaining selected w =
      (Some (selected ++ kept tr entries remaining w)%list, w') /\
    calls w' = (calls w ++ overwritten tr entries remaining w)%list /\
    database w' =
      fold_left (@applyCall Store _) (overwritten tr entries remaining w) (database w).
Proof.
  unfold kept, overwritten.
  revert selected w. induction remaining as [|e rest IH]; intros selected w Hall.
  - exists w. simpl. now rewrite !app_nil_r.
  - change (visits tr entries true (e :: rest) w)
      with (w :: match resolveReferences tr entries true e w with
                 | (Cancelled, _) => []
                 | (_, w') => visits tr entries true rest w'
                 end) in *.
    change (selectEntries tr entries true (e :: rest) selected w)
      with (match resolveReferences tr entries true e w with
            | (Cancelled, w) => (None, w)
            | (Skipped, w) => selectEntries tr entries true rest selected w
            | (Marked, w) =>
                selectEntries tr entries true rest (selected ++ [e]) w
            end).
    cbn [combine] in *.
    apply Forall_cons in Hall as [Hhead Hall]. cbn [fst snd] in Hhead.
    pose proof (resolveReferences_answer entries e w) as Hres.
    cbn [List.filter flat_map fst snd]. unfold overwriteCalls at 1 3.
    destruct (answerAt tr entries true e w) as [c|].
    + destruct Hres as (w1 & Hc & Hd & Hrange & Hres). rewrite Hres in *.
      assert (c = 0 \/ c = 1 \/ c = 2) as [->|[->| ->]]
        by (destruct Hrange as [->|Hr]; [congruence|lia]);
        simpl in Hall |- *.
      * destruct (IH (selected ++ [e])%list _ Hall) as (w' & Hsel & Hcalls & Hdb).
        exists w'. rewrite Hsel. split; [now rewrite <- List.app_assoc|].
        destruct (calls_fold (fun ref => ReplaceReferencesWithValues ref e)
                    (ignoreCohort entries (referencesRecursive (database w) e)) w1)
          as [Hc' Hd'].
        rewrite Hcalls, Hdb, Hc', Hd', Hc, Hd.
        now rewrite <- List.app_assoc, fold_left_app.
      * destruct (IH selected _ Hall) as (w' & Hsel & Hcalls & Hdb).
        exists w'. rewrite Hsel. split; [reflexivity|].
        now rewrite Hcalls, Hdb, Hc, Hd.
      * destruct (IH (selected ++ [e])%list _ Hall) as (w' & Hsel & Hcalls & Hdb).
        exists w'. rewrite Hsel. split; [now rewrite <- List.app_assoc|].
        now rewrite Hcalls, Hdb, Hc, Hd.
    + rewrite Hres in *. simpl in Hall |- *.
      destruct (IH (selected ++ [e])%list _ Hall) as (w' & Hsel & Hcalls & Hdb).
      exists w'. rewrite Hsel. split; [now rewrite <- List.app_assoc|].
      split; [exact Hcalls|exact Hdb].
Qed.

Lemma overwriteCalls_replace entries permanent e (w : World Store) :
  List.filter isRemoval (overwriteCalls tr entries permanent e w) = [].
Proof.
  unfold overwriteCalls.
  destruct (answerAt tr entries permanent e w) as [c|]; [|reflexivity].
  destruct c as [|p|p]; try reflexivity.
  now induction (ignoreCohort _ _).
Qed.

Lemma overwrites_replace entries permanent (l : list (Entry * World Store)) :
  List.filter isRemoval
    (flat_map (fun ev => overwriteCalls tr entries permanent (fst ev) (snd ev)) l)
  = [].
Proof.
  induction l as [|ev l IH]; [reflexivity|].
  simpl. now rewrite List.filter_app, IH, overwriteCalls_replace.
Qed.

Lemma deletes_removal (l : list Entry) :
  List.filter isRemoval (map DeleteEntry l) = map DeleteEntry l.
Proof. induction l as [|a l IH]; [reflexivity|]. simpl. now rewrite IH. Qed.

Lemma confirmation_calls client name entries permanent (w : World Store) :
  calls (snd (confirmation tr client name entries permanent w)) = calls w /\
  database (snd (confirmation tr client name entries permanent w)) = database w.
Proof.
  unfold confirmation, onProcess.
  destruct (confirmDeleteItem w); [|now split].
  now destruct (confirmDeleteEntries _ _ _ _ _ _).
Qed.

(** C6. In a permanent request that gets past the confirmation and is
    not cancelled, the entries removed are the entries of the batch
    without those answered "Skip", so that a skipped entry stays and
    the others are still removed; an answer "Overwrite" calls
    replaceReferencesWithValues on every entry that refers to the
    entry asked about and is not in the batch, and all these calls are
    made, and take effect on the store, before the first deletion; and
    the number returned is the number of entries deleted. *)
Theorem remove_skip_overwrite client name entries (w : World Store) :
  let paused := set_process (LineReader.pause (process w)) w in
  let gate := confirmation tr client name entries true paused in
  let run := combine entries (visits tr entries true entries (snd gate)) in
  let answer (ev : Entry * World Store) :=
    answerAt tr entries true (fst ev) (snd ev) in
  let removed :=
    map fst (List.filter (fun ev => negb (isSkip (answer ev))) run) in
  let overwrites :=
    flat_map (fun ev => overwriteCalls tr entries true (fst ev) (snd ev)) run in
  let r := requestEntriesRemove tr client name entries true w in
  fst gate = false ->
  Forall (fun ev => answer ev <> Some (-1)) run ->
  fst r = length removed /\
  calls (snd r) = (calls w ++ overwrites ++ map DeleteEntry removed)%list /\
  database (snd r) =
    fold_left (@applyCall Store _) (map DeleteEntry removed)
      (fold_left (@applyCall Store _) overwrites (database w)) /\
  length (List.filter isRemoval (overwrites ++ map DeleteEntry removed)) = fst r /\
  (forall ev ref,
     In ev run -> answer ev = Some 0 ->
     In ref (referencesRecursive (database (snd ev)) (fst ev)) ->
     ~ In ref entries ->
     In (ReplaceReferencesWithValues ref (fst ev)) overwrites).
Proof.
  intros paused gate run answer removed overwrites r Hgate Hall.
  destruct (confirmation_calls client name entries true paused) as [Hgc Hgd].
  fold gate in Hgc, Hgd. simpl in Hgc, Hgd.
  assert (Hfilter : List.filter isRemoval (overwrites ++ map DeleteEntry removed)
                    = map DeleteEntry removed).
  { rewrite List.filter_app. subst overwrites.
    now rewrite overwrites_replace, deletes_removal. }
  assert (Hr : fst r = length removed /\
               calls (snd r) = (calls w ++ overwrites ++ map DeleteEntry removed)%list /\
               database (snd r) =
                 fold_left (@applyCall Store _) (map DeleteEntry removed)
                   (fold_left (@applyCall Store _) overwrites (database w))).
  { subst r. unfold requestEntriesRemove, requestEntriesRemove_body.
    fold paused. destruct (isEmpty entries) eqn:Hempty.
    { destruct entries; [|discriminate]. simpl. split; [reflexivity|].
      now rewrite app_nil_r. }
    fold gate. subst removed overwrites run answer.
    destruct gate as [confirmed w1]. simpl in Hgate, Hgc, Hgd, Hall |- *.
    subst confirmed.
    destruct (selectEntries_spec entries entries [] w1 Hall)
      as (w2 & Hsel & Hcalls & Hdb).
    rewrite Hsel. simpl. split; [reflexivity|].
    destruct (removeEntries_calls true (kept tr entries entries w1) w2) as [-> ->].
    rewrite Hcalls, Hdb, Hgc, Hgd. unfold kept, overwritten.
    split; [now rewrite <- List.app_assoc|reflexivity]. }
  destruct Hr as (Hcount & Hcalls & Hdb). repeat split; auto.
  - rewrite Hfilter, Hcount. now rewrite length_map.
  - intros ev ref Hev Hanswer Href Hout. subst overwrites.
    apply List.in_flat_map. exists ev. split; [exact Hev|].
    unfold overwriteCalls. subst answer. simpl in Hanswer. rewrite Hanswer.
    apply (List.in_map (fun ref => ReplaceReferencesWithValues ref (fst ev))).
    apply ignoreCohort_In. now split.
Qed.

(** C10. With an empty list of entries requestEntriesRemove returns 0,
    whatever the permanent flag and the confirm-deletion setting are,
    and asks nothing: the guard writes its two lines, no question is
    put, nothing is read and the store is not called. *)
Theorem remove_nothing client name permanent (w : World Store) :
  let r := requestEntriesRemove tr client name [] permanent w in
  fst r = 0%nat /\
  (exists lines,
     stdout (process (snd r)) = (stdout (process w) ++ lines)%list /\
     Forall (fun l => isQuestion l = false) lines) /\
  stdin (process (snd r)) = stdin (process w) /\
  calls (snd r) = calls w /\
  database (snd r) = database w.
Proof.
  intros r. subst r. unfold requestEntriesRemove, requestEntriesRemove_body.
  simpl. repeat split.
  - unfold LineReader.restore, LineReader.pause, LineReader.disconnect.
    destruct (backend (process w)) eqn:Hb; simpl; rewrite Hb; simpl.
    + exists [ReaderNewline; ReaderPrompt (m_prompt (process w))].
      rewrite <- List.app_assoc. split; [reflexivity|]. now repeat constructor.
    + exists [ReaderPrompt (m_prompt (process w))].
      split; [reflexivity|]. now repeat constructor.
  - unfold LineReader.restore, LineReader.pause, LineReader.disconnect.
    destruct (backend (process w)) eqn:Hb; simpl; rewrite Hb; reflexivity.
Qed.

(** Without the permanent flag the first loop keeps every entry. *)
Lemma selectEntries_recycle entries remaining selected (w : World Store) :
  selectEntries tr entries false remaining selected w =
    (Some (selected ++ remaining)%list, w).
Proof.
  revert selected. induction remaining as [|e rest IH]; intros selected; simpl.
  - now rewrite app_nil_r.
  - rewrite IH. now rewrite <- List.app_assoc.
Qed.

(** The confirmation as the code has it: with the setting on, the
    answer "Allow" makes requestEntriesRemove return 0 with nothing
    removed, and any other outcome of the confirmation, "Deny" and an
    exhausted input included, lets the removal go ahead; without the
    permanent flag every entry of the batch is then recycled. *)
Lemma confirmation_inverted client name entries permanent (w : World Store) :
  let paused := set_process (LineReader.pause (process w)) w in
  let confirmed :=
    fst (confirmDeleteEntries tr client name entries permanent (process paused)) in
  let r := requestEntriesRemove tr client name entries permanent w in
  entries <> [] -> confirmDeleteItem w = true ->
  (confirmed = true -> fst r = 0%nat /\ calls (snd r) = calls w) /\
  (confirmed = false -> permanent = false ->
     fst r = length entries /\
     calls (snd r) = (calls w ++ map RecycleEntry entries)%list).
Proof.
  intros paused confirmed r Hne Hon. subst r confirmed.
  unfold requestEntriesRemove, requestEntriesRemove_body. fold paused.
  destruct entries as [|e0 l] eqn:He; [congruence|]. rewrite <- He in *.
  replace (isEmpty entries) with false by now rewrite He.
  unfold confirmation, onProcess.
  replace (confirmDeleteItem paused) with true by now symmetry.
  destruct (confirmDeleteEntries tr client name entries permanent (process paused))
    as [c p1]. simpl. split.
  - intros ->. now split.
  - intros -> ->. rewrite selectEntries_recycle. simpl. split; [reflexivity|].
    now destruct (removeEntries_calls false entries (set_process p1 paused))
      as [-> _].
Qed.

(** When the loop body puts the reference prompt: whenever the entry has
    a reference at all, members of the cohort included, and then with
    the number of references left after the cohort is taken out. *)
Lemma reference_prompt_condition entries e (w : World Store) :
  let references := referencesRecursive (database w) e in
  let w' := snd (resolveReferences tr entries true e w) in
  (references = [] -> w' = w) /\
  (references <> [] ->
     exists availableActions lines,
       stdout (process w') =
         (stdout (process w) ++
          EntryHasReferences e (length (ignoreCohort entries references)) ::
          Asked ReplaceReferences availableActions :: lines)%list).
Proof.
  intros references w'. subst w'. unfold resolveReferences. fold references.
  destruct references as [|x l] eqn:Hrefs; simpl isEmpty; cbv iota;
    simpl negb; cbv iota.
  { split; [reflexivity|congruence]. }
  split; [discriminate|]. intros _.
  unfold askReferences, onProcess, userAction.
  set (avail := join " | " _).
  set (p1 := write (Asked ReplaceReferences avail) _).
  destruct (PromptTheorems.userAction_while_stdout
              [tr "o|overwrite"; tr "s|skip"; tr "d|delete"] avail p1)
    as (notices & Hout & _).
  destruct (userAction_while _ avail p1) as [choice p2]. simpl in Hout.
  exists avail, notices.
  assert (Hkeep : forall (refs : list Entry) (v : World Store),
    process (fold_left
               (fun w ref => call (ReplaceReferencesWithValues ref e) w) refs v)
    = process v).
  { clear. induction refs as [|r refs IH]; intros v; [reflexivity|].
    simpl. now rewrite IH. }
  assert (Hp2 : stdout p2 =
    (stdout (process w) ++
     EntryHasReferences e (length (ignoreCohort entries (x :: l))) ::
     Asked ReplaceReferences avail :: notices)%list).
  { rewrite Hout. subst p1. simpl. now rewrite <- !List.app_assoc. }
  destruct (choice =? 0); [simpl; now rewrite Hkeep|].
  destruct (choice =? 1); [exact Hp2|].
  destruct (choice =? 2); exact Hp2.
Qed.

End WithStore.

End RemoveTheorems.

(** ** Worked examples *)

Module Examples.
Import QtText TextStream Prompt ExampleStore.

(** " Y " and "y", each followed by a line feed, select the same
    choice; "maybe" is answered with the notice. *)
Lemma userAction_matching_witness :
  fst (userAction ChooseAction yesNoLabels yesNo
         (set_stdin (" " +:+ "Y" +:+ String " " newline) (session ""))) =
  fst (userAction ChooseAction yesNoLabels yesNo
         (set_stdin ("" +:+ "y" +:+ newline) (session "")))
  /\
  In (UnknownResponse "maybe" (join " | " yesNoLabels))
     (stdout (snd (userAction ChooseAction yesNoLabels yesNo
                     (session (typed ["maybe"; "y"]))))).
Proof.
  split.
  - destruct (PromptTheorems.userAction_matching ChooseAction yesNoLabels yesNo
                (session "")) as (_ & _ & H & _).
    destruct (H " " "" "Y" "y" " "%char "010"%char newline ""
                eq_refl eq_refl eq_refl eq_refl
                eq_refl ltac:(discriminate) eq_refl ltac:(discriminate) eq_refl)
      as [(_ & Heq & _)|[Hno _]].
    + exact Heq.
    + exfalso. vm_compute in Hno. intuition discriminate.
  - destruct (PromptTheorems.userAction_matching ChooseAction yesNoLabels yesNo
                (session (typed ["maybe"; "y"]))) as (_ & _ & _ & H).
    apply (H "maybe" (newline +:+ typed ["y"])); try reflexivity.
    intros action alias [<-|[<-|[]]] [<-|[<-|[]]]; vm_compute; discriminate.
Defined.

(** With nothing to read the prompt answers -1; "no" is answered with
    index 1. *)
Lemma userAction_returns_at_once_witness :
  fst (userAction ChooseAction yesNoLabels yesNo (session "")) = -1 /\
  fst (userAction ChooseAction yesNoLabels yesNo (session (typed ["No"]))) = 1.
Proof.
  split.
  - destruct (PromptTheorems.userAction_returns_at_once ChooseAction yesNoLabels
                yesNo (session "")) as (H & _).
    rewrite H; reflexivity.
  - destruct (PromptTheorems.userAction_returns_at_once ChooseAction yesNoLabels
                yesNo (session (typed ["No"]))) as (_ & H & _).
    rewrite (H 1%nat "n|no"); try reflexivity.
    intros [|j] other Hj Hother; [|lia].
    injection Hother as <-. reflexivity.
Defined.

(** "Allow Selected", "yes" for the first entry, then the input ends. *)
Lemma unlock_cancelled_witness :
  let r := requestEntriesUnlock tr client "db" [1; 2; 3]%nat ∅ Allowed
             (session (typed ["s"; "y"])) in
  returned r = false /\ forFutureEntriesOf r = Undecided /\
  forall e, isDurable (value (decisionsOf r) e) = false.
Proof.
  intros r.
  assert (Hfresh : forall e : nat, isDurable (value ∅ e) = false).
  { intros e. unfold value. now rewrite lookup_empty. }
  destruct (UnlockTheorems.unlock_cancelled tr client "db" [1; 2; 3]%nat ∅ Allowed
              (session (typed ["s"; "y"])) Hfresh) as (_ & Hentry & _ & Hdur & _).
  fold r in Hentry, Hdur.
  assert (returned r = false) as Hret.
  { apply Hentry; [reflexivity|]. vm_compute. right. now left. }
  split; [exact Hret|]. exact (Hdur Hret).
Defined.

(** "Allow All" and "remember: yes" for three entries. *)
Lemma unlock_all_witness :
  let r := requestEntriesUnlock tr client "db" [1; 2; 3]%nat ∅ Undecided
             (session (typed ["a"; "y"])) in
  returned r = true /\ forFutureEntriesOf r = Allowed /\
  forall e, In e [1; 2; 3]%nat -> decisionsOf r !! e = Some Allowed.
Proof.
  intros r.
  destruct (UnlockTheorems.unlock_all tr client "db" [1; 2; 3]%nat ∅ Undecided
              (session (typed ["a"; "y"]))) as (H & _).
  apply H; reflexivity.
Defined.

(** The scenario of the spec: three entries, "Allow Selected", yes, no,
    yes, and "remember: no". *)
Lemma unlock_selected_witness :
  let r := requestEntriesUnlock tr client "db" [1; 2; 3]%nat ∅ Undecided
             (session (typed ["s"; "y"; "n"; "y"; "n"])) in
  returned r = true /\ forFutureEntriesOf r = Undecided /\
  decisionsOf r !! 1%nat = Some AllowedOnce /\
  decisionsOf r !! 2%nat = Some Undecided /\
  decisionsOf r !! 3%nat = Some AllowedOnce.
Proof.
  intros r.
  destruct (UnlockTheorems.unlock_selected tr client "db" [1; 2; 3]%nat ∅ Undecided
              (session (typed ["s"; "y"; "n"; "y"; "n"])) eq_refl) as (_ & _ & H).
  apply (H 1%nat 2%nat 3%nat); try reflexivity; lia.
Defined.

(** Entries 1 and 2 are referenced from outside the batch, entry 3 is
    not; "Skip" for entry 1 and "Overwrite" for entry 2. *)
Lemma remove_skip_overwrite_witness :
  let r := requestEntriesRemove tr client "db" [1; 2; 3]%nat true
             (world (typed ["s"; "o"]) referenced false) in
  fst r = 2%nat /\
  calls (snd r) =
    [ReplaceReferencesWithValues 8 2; ReplaceReferencesWithValues 9 2;
     DeleteEntry 2; DeleteEntry 3] /\
  database (snd r) = [(1, []); (8, []); (9, [1])]%nat.
Proof.
  intros r.
  pose proof (RemoveTheorems.remove_skip_overwrite tr client "db" [1; 2; 3]%nat
                (world (typed ["s"; "o"]) referenced false)) as H.
  cbv zeta in H. specialize (H eq_refl).
  assert (Hall : Forall
    (fun ev : nat * World Store =>
       answerAt tr [1; 2; 3]%nat true (fst ev) (snd ev) <> Some (-1))
    (combine [1; 2; 3]%nat
       (visits tr [1; 2; 3]%nat true [1; 2; 3]%nat
          (snd (confirmation tr client "db" [1; 2; 3]%nat true
                  (set_process
                     (LineReader.pause
                        (process (world (typed ["s"; "o"]) referenced false)))
                     (world (typed ["s"; "o"]) referenced false))))))).
  { vm_compute. repeat constructor; discriminate. }
  destruct (H Hall) as (Hcount & Hcalls & Hdb & _).
  split; [exact Hcount|]. split; [exact Hcalls|exact Hdb].
Defined.

(** C1 on the code: the confirmation is on and the operator answers
    "Deny", or the input ends at the confirmation, and the entry is
    deleted all the same; on "Allow" nothing is removed. *)
Lemma deny_does_not_stop_removal :
  let deny := requestEntriesRemove tr client "db" [1]%nat true
                (world (typed ["d"]) [(1, [])]%nat true) in
  let cancel := requestEntriesRemove tr client "db" [1]%nat true
                  (world "" [(1, [])]%nat true) in
  let allow := requestEntriesRemove tr client "db" [1]%nat true
                 (world (typed ["a"]) [(1, [])]%nat true) in
  (fst deny = 1%nat /\ calls (snd deny) = [DeleteEntry 1] /\ database (snd deny) = []) /\
  (fst cancel = 1%nat /\ calls (snd cancel) = [DeleteEntry 1] /\ database (snd cancel) = []) /\
  (fst allow = 0%nat /\ calls (snd allow) = [] /\ database (snd allow) = [(1, [])]%nat).
Proof. repeat split. Qed.

(** C5 on the code: entry 1 is referenced by entry 2 only, and both are
    in the batch. The reference set left for entry 1 is empty, and the
    prompt is put all the same, announcing 0 references; with the input
    at its end there, the whole request removes nothing. *)
Lemma cohort_references_still_prompt :
  let r := requestEntriesRemove tr client "db" [1; 2]%nat true
             (world (typed ["d"]) cohort false) in
  let cancel := requestEntriesRemove tr client "db" [1; 2]%nat true
                  (world "" cohort false) in
  ignoreCohort [1; 2]%nat (referencesRecursive cohort 1%nat) = [] /\
  stdout (process (snd r)) =
    [ReaderPrompt "> "; ReaderNewline; EntryHasReferences 1 0;
     Asked ReplaceReferences
       "[O]verwrite references with values | [S]kip this entry | [D]elete anyway";
     ReaderPrompt "> "] /\
  fst r = 2%nat /\
  fst cancel = 0%nat /\ calls (snd cancel) = [].
Proof. repeat split. Qed.

(** C7 on the code: a word that ends the input is not matched. " Y "
    and a line feed select "yes"; "y" with nothing after it selects
    nothing; and "maybe" with nothing after it, which matches no alias,
    is answered with -1 and without the notice: the question is the only
    line written. *)
Lemma last_word_is_not_matched :
  fst (userAction ChooseAction yesNoLabels yesNo (session (" Y " +:+ newline))) = 0 /\
  fst (userAction ChooseAction yesNoLabels yesNo (session "y")) = -1 /\
  findMatch (clean "maybe") yesNo 0 = None /\
  userAction ChooseAction yesNoLabels yesNo (session "maybe") =
    (-1, set_stdin ""
           (write (Asked ChooseAction (join " | " yesNoLabels)) (session "maybe"))).
Proof. repeat split. Qed.

(** C8 on the code: the word "no" matches an alias of choice 1; read as
    the last thing of the input, it is answered with -1. *)
Lemma matching_last_word_cancels :
  readWord "no" = ("no", "") /\
  matchesAction (clean "no") "n|no" = true /\
  yesNo !! 1%nat = Some "n|no" /\
  fst (userAction ChooseAction yesNoLabels yesNo (session "no")) = -1.
Proof. repeat split. Qed.

End Examples.

(** ** Further properties of the line reader *)

Module LineReaderProperties.
Import LineReader SimpleLineReader ReadlineLineReader ExampleStore TextFacts.

(** What a LineReaderGuard leaves behind when the code under it has
    left the reader alone and has only added [lines] to the output. *)
Lemma guard_effects p b lines :
  sameReader (pause p) b ->
  stdout b = (stdout (pause p) ++ lines)%list ->
  connections (restore b) = S (connections p) /\
  rl_linefunc (restore b) =
    match backend p with Readline => true | Simple => rl_linefunc p end /\
  backend (restore b) = backend p /\
  m_prompt (restore b) = m_prompt p /\
  emitted (restore b) = emitted p /\
  history (restore b) = history p /\
  stdout (restore b) =
    (stdout p ++ pauseLines p ++ lines ++ restoreLines p)%list.
Proof.
  intros (Hb & Hp & Hc & Hrl & Hh & He) Hout.
  unfold restore, pauseLines, restoreLines. rewrite Hb.
  unfold pause, disconnect in *.
  destruct (backend p) eqn:Ebp; simpl in *; rewrite ?Ebp in *; simpl in *;
    rewrite Hc, Hp, Hout, <- ?List.app_assoc; now repeat split.
Qed.

(** X1. A LineReaderGuard around code that leaves the reader object
    alone and only adds to the output does not put the reader back as it
    was: [pause] takes no slot away and [restore] attaches one more, so
    after the guard the notifier has one slot more than before. The rest
    is as before: backend, prompt text, signals emitted and history; the
    readline handler is installed again; and the output is the line of
    [pause], what the guarded code wrote, and the prompt. *)
Theorem guard_adds_slot {A} (body : Process -> A * Process) (p : Process)
    (lines : list Line) :
  sameReader (pause p) (snd (body (pause p))) ->
  stdout (snd (body (pause p))) = (stdout (pause p) ++ lines)%list ->
  let r := LineReaderGuard body p in
  fst r = fst (body (pause p)) /\
  connections (snd r) = S (connections p) /\
  rl_linefunc (snd r) =
    match backend p with Readline => true | Simple => rl_linefunc p end /\
  backend (snd r) = backend p /\ m_prompt (snd r) = m_prompt p /\
  emitted (snd r) = emitted p /\ history (snd r) = history p /\
  stdout (snd r) = (stdout p ++ pauseLines p ++ lines ++ restoreLines p)%list.
Proof.
  intros Hsame Hout r. subst r. unfold LineReaderGuard.
  destruct (body (pause p)) as [result b]. simpl in *.
  split; [reflexivity|]. exact (guard_effects p b lines Hsame Hout).
Qed.

(** Two guards in a row around code that writes a blank line: three
    slots are attached afterwards. *)
Lemma guard_adds_slot_witness :
  let body := fun q : Process => (tt, write Blank q) in
  let p := create Simple "> " (typed ["ls"]) in
  let once := snd (LineReaderGuard body p) in
  let twice := snd (LineReaderGuard body once) in
  connections p = 1%nat /\ connections once = 2%nat /\
  connections twice = 3%nat /\
  stdout once = [ReaderPrompt "> "; ReaderNewline; Blank; ReaderPrompt "> "].
Proof.
  intros body p once twice.
  assert (Hbody : forall q,
            sameReader (pause q) (snd (body (pause q))) /\
            stdout (snd (body (pause q))) = (stdout (pause q) ++ [Blank])%list).
  { intros q. now repeat split. }
  destruct (guard_adds_slot body p [Blank] (proj1 (Hbody p)) (proj2 (Hbody p)))
    as (_ & Hc1 & _ & _ & _ & _ & _ & Ho1).
  destruct (guard_adds_slot body once [Blank]
              (proj1 (Hbody once)) (proj2 (Hbody once)))
    as (_ & Hc2 & _).
  fold once in Hc1, Ho1. fold twice in Hc2.
  split; [reflexivity|]. split; [exact Hc1|].
  split; [now rewrite Hc2, Hc1|exact Ho1].
Defined.

Lemma run_activate k p :
  run (repeat Activate (S k)) p = run (repeat Activate k) (activated p).
Proof. reflexivity. Qed.

Lemma readLine_cons c r :
  TextStream.readLine (String c r) =
    if Ascii.eqb c "010" then (EmptyString, r)
    else if Ascii.eqb c "013" then
      match r with
      | EmptyString => (EmptyString, EmptyString)
      | String c' r' =>
          if Ascii.eqb c' "010" then (EmptyString, r')
          else let (l, rest) := TextStream.readLine r in (String c l, rest)
      end
    else let (l, rest) := TextStream.readLine r in (String c l, rest).
Proof. reflexivity. Qed.

(** [readLine] gives back a line that was terminated by a line feed. *)
Lemma readLine_line l rest :
  isLine l = true ->
  TextStream.readLine (l +:+ newline +:+ rest) = (l, rest).
Proof.
  induction l as [|c l IH]; [reflexivity|].
  intros H. pose proof H as H0. simpl in H0.
  apply andb_prop in H0 as [H0 Hl]. apply andb_prop in H0 as [Hlf Hcr].
  apply Bool.negb_true_iff in Hlf.
  rewrite append_cons, readLine_cons, Hlf, (IH Hl).
  destruct (Ascii.eqb c "013"); [|reflexivity].
  destruct l as [|d l]; [discriminate|].
  rewrite append_cons.
  simpl in Hl. apply andb_prop in Hl as [Hd _]. apply andb_prop in Hd as [Hd _].
  apply Bool.negb_true_iff in Hd. now rewrite Hd.
Qed.

Lemma typed_cons l ls : typed (l :: ls) = l +:+ newline +:+ typed ls.
Proof. reflexivity. Qed.

Lemma typed_not_atEnd l ls : TextStream.atEnd (typed (l :: ls)) = false.
Proof. rewrite typed_cons. now destruct l. Qed.

(** One activation of a plain reader with one slot: a line is waiting. *)
Lemma activated_line p l ls :
  connections p = 1%nat -> isLine l = true -> stdin p = typed (l :: ls) ->
  let q := activated p in
  connections q = 1%nat /\ m_prompt q = m_prompt p /\
  stdin q = typed ls /\
  emitted q = (emitted p ++ [readLine l])%list /\
  stdout q = (stdout p ++ [ReaderPrompt (m_prompt p)])%list.
Proof.
  intros Hc Hl Hin q. subst q. unfold activated. rewrite Hc. simpl.
  unfold slot, m_input_atEnd, m_input_readLine.
  rewrite Hin, typed_not_atEnd, typed_cons, (readLine_line l _ Hl).
  simpl. now repeat split.
Qed.

Lemma lines_delivered p ls k :
  connections p = 1%nat -> (k <= length ls)%nat ->
  Forall (fun l => isLine l = true) ls -> stdin p = typed ls ->
  let q := run (repeat Activate k) p in
  connections q = 1%nat /\
  emitted q = (emitted p ++ map readLine (take k ls))%list /\
  stdin q = typed (drop k ls) /\
  stdout q = (stdout p ++ repeat (ReaderPrompt (m_prompt p)) k)%list.
Proof.
  revert p ls. induction k as [|k IH]; intros p ls Hc Hk Hls Hin q; subst q.
  - simpl. rewrite !app_nil_r. now repeat split.
  - rewrite run_activate. destruct ls as [|l ls]; [simpl in Hk; lia|].
    apply Forall_cons in Hls as [Hl Hls].
    destruct (activated_line p l ls Hc Hl Hin) as (Hc' & Hp' & Hin' & Hem' & Ho').
    assert (Hk' : (k <= length ls)%nat) by (simpl in Hk; lia).
    destruct (IH (activated p) ls Hc' Hk' Hls Hin') as (Hcq & Hem & Hi & Ho).
    rewrite Hcq, Hem, Hi, Ho, Hem', Ho', Hp'. simpl.
    rewrite <- !List.app_assoc. simpl. repeat split.
Qed.

(** X2. The plain backend, started on an input of complete lines,
    delivers the lines one per activation, each exactly once and in the
    order of the input: after [k] activations, [k] not beyond the
    number of lines, the signals emitted are the first [k] lines, the
    rest of the input is unread, the prompt has been rendered once for
    the start and once after each line, and one slot is attached. *)
Theorem lines_delivered_in_order (text : string) (ls : list string) (k : nat) :
  (k <= length ls)%nat ->
  Forall (fun l => isLine l = true) ls ->
  let q := run (repeat Activate k) (create Simple text (typed ls)) in
  emitted q = map readLine (take k ls) /\
  stdin q = typed (drop k ls) /\
  stdout q = repeat (ReaderPrompt text) (S k) /\
  connections q = 1%nat.
Proof.
  intros Hk Hls q. subst q.
  destruct (lines_delivered (create Simple text (typed ls)) ls k
              eq_refl Hk Hls eq_refl) as (Hc & He & Hi & Ho).
  rewrite He, Hi, Ho, Hc. now repeat split.
Qed.

Lemma lines_delivered_in_order_witness :
  let q := run (repeat Activate 2)
             (create Simple "> " (typed ["ls"; ""; "show x"])) in
  emitted q = [readLine "ls"; readLine ""] /\ stdin q = typed ["show x"].
Proof.
  intros q.
  destruct (lines_delivered_in_order "> " ["ls"; ""; "show x"] 2) as (He & Hi & _).
  - simpl. lia.
  - repeat constructor.
  - split; [exact He|exact Hi].
Defined.

Lemma handed_snoc commands command p :
  handed (commands ++ [command]) p = s_readLine (Some command) (handed commands p).
Proof. unfold handed. now rewrite fold_left_app. Qed.

Lemma repeat_snoc {A} (x : A) n : (repeat x n ++ [x])%list = repeat x (S n).
Proof. induction n as [|n IH]; simpl; [reflexivity|]. now rewrite IH. Qed.

Lemma handed_effects commands p :
  rl_linefunc p = true ->
  let q := handed commands p in
  emitted q = (emitted p ++ map readLine commands)%list /\
  history q = (history p ++ map Some commands)%list /\
  stdout q =
    (stdout p ++ repeat (ReaderPrompt (m_prompt p)) (length commands))%list /\
  rl_linefunc q = true /\ connections q = connections p /\
  m_prompt q = m_prompt p.
Proof.
  intros Hrl. induction commands as [|command commands IH] using rev_ind.
  - simpl. rewrite !app_nil_r. now repeat split.
  - simpl in IH. destruct IH as (He & Hh & Ho & Hl & Hc & Hp).
    rewrite handed_snoc, length_app, Nat.add_comm, !map_app.
    unfold s_readLine, handleLine, rl_callback_handler_install,
      rl_callback_handler_remove. simpl.
    rewrite He, Hh, Ho, Hc, Hp, <- !List.app_assoc, repeat_snoc.
    now repeat split.
Qed.

(** X3. The handler of the readline backend, called while it is
    installed: every line readline hands over becomes exactly one
    [readLine] signal, in the order of the lines, is handed to
    add_history, and the prompt is displayed again with the handler in
    place. The null line of the end of the input becomes [finished] and
    is handed to add_history as well; it leaves the reader without its
    handler and with every slot still attached to the notifier. *)
Theorem handler_signals (p : Process) (commands : list string) :
  rl_linefunc p = true ->
  let q := handed commands p in
  let q' := s_readLine None q in
  (emitted q = (emitted p ++ map readLine commands)%list /\
   history q = (history p ++ map Some commands)%list /\
   stdout q =
     (stdout p ++ repeat (ReaderPrompt (m_prompt p)) (length commands))%list /\
   rl_linefunc q = true /\ connections q = connections p) /\
  (emitted q' = (emitted q ++ [finished])%list /\
   history q' = (history q ++ [None])%list /\
   stdout q' = stdout q /\
   rl_linefunc q' = false /\ connections q' = connections p).
Proof.
  intros Hrl q q'. subst q q'.
  destruct (handed_effects commands p Hrl) as (He & Hh & Ho & Hl & Hc & _).
  split; [now repeat split|].
  unfold s_readLine, handleLine, rl_callback_handler_remove, disconnect. simpl.
  now repeat split.
Qed.

Lemma handler_signals_witness :
  let q' := s_readLine None
              (handed ["ls"; "show x"] (create Readline "> " "")) in
  emitted q' = [readLine "ls"; readLine "show x"; finished] /\
  history q' = [Some "ls"; Some "show x"; None] /\
  rl_linefunc q' = false /\ connections q' = 1%nat.
Proof.
  intros q'.
  destruct (handler_signals (create Readline "> " "") ["ls"; "show x"] eq_refl)
    as (_ & He & Hh & _ & Hl & Hc).
  split; [exact He|]. split; [exact Hh|]. split; [exact Hl|exact Hc].
Defined.

End LineReaderProperties.

(** ** Further properties of the interactive prompt *)

Module PromptProperties.
Import QtText TextStream Prompt TextFacts PromptFacts ExampleStore.

Lemma trimLeft_head s :
  match trimLeft s with
  | EmptyString => True
  | String c _ => isSpace c = false
  end.
Proof.
  induction s as [|c s IH]; simpl; [exact I|].
  destruct (isSpace c) eqn:Hc; [exact IH|exact Hc].
Qed.

(** [in >> input] gives the empty word only at the end of the input. *)
Lemma readWord_empty s : fst (readWord s) = "" -> snd (readWord s) = "".
Proof.
  unfold readWord. pose proof (trimLeft_head s) as Hhead.
  destruct (trimLeft s) as [|c r]; [reflexivity|].
  simpl. rewrite Hhead. now destruct (scanWord r).
Qed.

Lemma isSpace_toLowerChar c : isSpace (toLowerChar c) = isSpace c.
Proof.
  destruct c as [[] [] [] [] [] [] [] []]; reflexivity.
Qed.

Lemma noSpace_toLower s : noSpace (toLower s) = noSpace s.
Proof.
  induction s as [|c s IH]; [reflexivity|].
  simpl. now rewrite isSpace_toLowerChar, IH.
Qed.

Lemma sameReader_refl p : sameReader p p.
Proof. now repeat split. Qed.

Lemma userAction_while_effects matches avail p :
  let r := userAction_while matches avail p in
  sameReader p (snd r) /\
  exists rejected consumed,
    stdout (snd r) =
      (stdout p ++ map (fun w => UnknownResponse w avail) rejected)%list /\
    Forall (fun w => w <> "" /\ noSpace w = true /\
                     findMatch (clean w) matches 0 = None) rejected /\
    stdin p = consumed +:+ stdin (snd r).
Proof.
  apply (userAction_while_ind matches avail (fun p r =>
    sameReader p (snd r) /\
    exists rejected consumed,
      stdout (snd r) =
        (stdout p ++ map (fun w => UnknownResponse w avail) rejected)%list /\
      Forall (fun w => w <> "" /\ noSpace w = true /\
                       findMatch (clean w) matches 0 = None) rejected /\
      stdin p = consumed +:+ stdin (snd r))); clear p.
  - intros p _. split; [now repeat split|].
    destruct (readWord_split (stdin p)) as (ws & Hsplit & _).
    exists [], (ws +:+ fst (readWord (stdin p))). simpl.
    rewrite app_nil_r, append_assoc. now repeat split.
  - intros p i _ _. split; [now repeat split|].
    destruct (readWord_split (stdin p)) as (ws & Hsplit & _).
    exists [], (ws +:+ fst (readWord (stdin p))). simpl.
    rewrite app_nil_r, append_assoc. now repeat split.
  - intros p r Hend Hnone (Hsame & rejected & consumed & Hout & Hall & Hin).
    split; [exact Hsame|].
    destruct (readWord_split (stdin p)) as (ws & Hsplit & _ & Hword).
    exists (fst (readWord (stdin p)) :: rejected),
           (ws +:+ fst (readWord (stdin p)) +:+ consumed).
    simpl in Hout, Hin. repeat split.
    + rewrite Hout, <- List.app_assoc. reflexivity.
    + constructor; [|exact Hall]. repeat split; auto.
      intros Hempty. apply readWord_empty in Hempty.
      rewrite Hempty in Hend. discriminate.
    + rewrite Hsplit at 1. rewrite Hin. now rewrite !append_assoc.
Qed.

(** X4. A prompt changes nothing of the reader object and touches only
    the two standard streams: it reads a prefix of the unread text, and
    it writes its question followed by one unknown-response notice for
    each word it rejected, in the order of the words; every rejected
    word is a non-empty word without white space that matches no alias. *)
Theorem userAction_effects message actions matches (p : Process) :
  let availableActions := join " | " actions in
  let r := userAction message actions matches p in
  sameReader p (snd r) /\
  exists rejected consumed,
    stdout (snd r) =
      (stdout p ++ Asked message availableActions ::
         map (fun w => UnknownResponse w availableActions) rejected)%list /\
    Forall (fun w => w <> "" /\ noSpace w = true /\
                     findMatch (clean w) matches 0 = None) rejected /\
    stdin p = consumed +:+ stdin (snd r).
Proof.
  intros avail r. subst r. unfold userAction. fold avail.
  destruct (userAction_while_effects matches avail (write (Asked message avail) p))
    as (Hsame & rejected & consumed & Hout & Hall & Hin).
  split; [exact Hsame|]. exists rejected, consumed. repeat split; auto.
  rewrite Hout. simpl. now rewrite <- List.app_assoc.
Qed.

(** X5. Cancellation is sticky: once a prompt has returned -1, every
    later prompt on the same input writes its question and returns -1
    as well, without a notice. *)
Theorem cancel_is_sticky message actions matches message' actions' matches'
    (p : Process) :
  let r := userAction message actions matches p in
  fst r = -1 ->
  userAction message' actions' matches' (snd r) =
    (-1, write (Asked message' (join " | " actions')) (snd r)).
Proof.
  intros r Hr.
  destruct (userAction_range message actions matches p) as [[_ Hend]|[Hpos _]];
    fold r in Hend || fold r in Hpos; [|lia].
  unfold userAction. rewrite userAction_while_eq. simpl stdin.
  destruct (stdin (snd r)) eqn:Hin; [|discriminate]. simpl.
  f_equal. destruct (snd r). simpl in *. now subst.
Qed.

Lemma cancel_is_sticky_witness :
  fst (userAction ChooseAction yesNoLabels yesNo
         (snd (userAction ChooseAction yesNoLabels yesNo (session "maybe")))) = -1.
Proof.
  now rewrite (cancel_is_sticky ChooseAction yesNoLabels yesNo
                 ChooseAction yesNoLabels yesNo (session "maybe") eq_refl).
Defined.

Lemma userAction_while_word matches avail p :
  let r := userAction_while matches avail p in
  0 <= fst r ->
  exists (i : nat) action alias,
    fst r = Z.of_nat i /\ matches !! i = Some action /\
    In alias (split "|" action) /\ noSpace (clean alias) = true.
Proof.
  apply (userAction_while_ind matches avail (fun p r =>
    0 <= fst r ->
    exists (i : nat) action alias,
      fst r = Z.of_nat i /\ matches !! i = Some action /\
      In alias (split "|" action) /\ noSpace (clean alias) = true)); clear p.
  - intros p _ H. simpl in H. lia.
  - intros p i _ Hi _.
    apply findMatch_Some in Hi as (k & action & -> & Hk & Hm & _).
    apply matchesAction_spec in Hm as (alias & Hin & Hclean).
    destruct (readWord_split (stdin p)) as (ws & _ & _ & Hword).
    exists k, action, alias. repeat split; auto.
    rewrite <- Hclean. unfold clean.
    now rewrite trimmed_noSpace, noSpace_toLower.
  - auto.
Qed.

(** X6. Input is read word by word, so a choice is only ever selected
    through an alias that has no white space inside: an alias of several
    words, such as "allow all", is never the alias that matches. *)
Theorem choice_by_single_word_alias message actions matches (p : Process) :
  let r := userAction message actions matches p in
  0 <= fst r ->
  exists (i : nat) action alias,
    fst r = Z.of_nat i /\ matches !! i = Some action /\
    In alias (split "|" action) /\
    noSpace (toLower (trimmed alias)) = true.
Proof.
  apply (userAction_while_word matches (join " | " actions)
           (write (Asked message (join " | " actions)) p)).
Qed.

(** "allow all" typed at the first question of an unlock request is
    taken as "allow", and "all" is left for the next question. *)
Lemma choice_by_single_word_alias_witness :
  let r := askAction tr (session (typed ["allow all"])) in
  fst r = 0 /\ stdin (snd r) = " all" +:+ newline /\
  exists (i : nat) action alias,
    fst r = Z.of_nat i /\
    [tr "a|allow|allow all"; tr "d|deny|deny all"; tr "s|selected|allow selected"]
      !! i = Some action /\
    In alias (split "|" action) /\
    noSpace (toLower (trimmed alias)) = true.
Proof.
  intros r. split; [reflexivity|]. split; [reflexivity|].
  apply (choice_by_single_word_alias ChooseAction
           [tr "[A]llow All"; tr "[D]eny All"; tr "Allow [S]elected"]
           [tr "a|allow|allow all"; tr "d|deny|deny all";
            tr "s|selected|allow selected"]
           (session (typed ["allow all"]))).
  vm_compute. discriminate.
Defined.

End PromptProperties.

(** ** Further properties of requestEntriesUnlock *)

Module UnlockProperties.
Import QtText TextStream Prompt TextFacts PromptFacts ExampleStore.
Import UnlockTheorems PromptProperties.

Lemma sameReader_trans p q r : sameReader p q -> sameReader q r -> sameReader p r.
Proof.
  unfold sameReader. intros (?&?&?&?&?&?) (?&?&?&?&?&?).
  repeat split; congruence.
Qed.

Lemma asks_refl p : asks p p [].
Proof. exists []. now rewrite app_nil_r. Qed.

Lemma asks_trans p q r ms ns : asks p q ms -> asks q r ns -> asks p r (ms ++ ns).
Proof.
  intros (l1 & H1 & <-) (l2 & H2 & <-). exists (l1 ++ l2)%list.
  unfold questionsOf. rewrite H2, H1, List.flat_map_app.
  now rewrite <- List.app_assoc.
Qed.

Lemma asks_write l p : isQuestion l = false -> asks p (write l p) [].
Proof. intros H. exists [l]. split; [reflexivity|]. now destruct l. Qed.

Lemma notices_no_question avail (ws : list string) :
  questionsOf (map (fun w => UnknownResponse w avail) ws) = [].
Proof. now induction ws. Qed.

Lemma asks_userAction message actions matches p :
  asks p (snd (userAction message actions matches p)) [message].
Proof.
  destruct (userAction_effects message actions matches p)
    as (_ & rejected & _ & Hout & _).
  eexists. split; [exact Hout|]. unfold questionsOf. simpl.
  now rewrite (notices_no_question _ rejected).
Qed.

Lemma asks_pause p : asks p (LineReader.pause p) [].
Proof.
  unfold LineReader.pause, LineReader.disconnect. destruct (backend p).
  - exists [ReaderNewline]. now split.
  - exists []. simpl. now rewrite app_nil_r.
Qed.

Lemma asks_restore p : asks p (LineReader.restore p) [].
Proof.
  unfold LineReader.restore. destruct (backend p);
    exists [ReaderPrompt (m_prompt p)]; now split.
Qed.

Lemma rememberDecisions_notIn dec entries (d : gmap nat AuthDecision) e :
  ~ In e entries -> rememberDecisions dec entries d !! e = d !! e.
Proof.
  unfold rememberDecisions. revert d.
  induction entries as [|a l IH]; intros d Hnot; [reflexivity|].
  simpl. rewrite IH by (intros ?; apply Hnot; now right).
  destruct (negb _); [|reflexivity].
  apply lookup_insert_ne. intros ->. apply Hnot. now left.
Qed.

Section WithTranslation.
Variable tr : string -> string.

Lemma announceUnlock_effects app entries p :
  sameReader p (announceUnlock app entries p) /\
  stdin (announceUnlock app entries p) = stdin p /\
  asks p (announceUnlock app entries p) [].
Proof.
  unfold announceUnlock.
  assert (forall q, sameReader q
            (fold_left (fun p entry => write (AccessItem 1 entry) p) entries q) /\
          stdin (fold_left (fun p entry => write (AccessItem 1 entry) p) entries q)
            = stdin q /\
          asks q (fold_left (fun p entry => write (AccessItem 1 entry) p) entries q) [])
    as Hfold.
  { induction entries as [|e l IH]; intros q.
    - split; [apply sameReader_refl|]. split; [reflexivity|apply asks_refl].
    - simpl. destruct (IH (write (AccessItem 1 e) q)) as (Hs & Hi & Ha).
      split; [exact Hs|]. split; [exact Hi|].
      apply (asks_trans q (write (AccessItem 1 e) q) _ [] []); [|exact Ha].
      now apply asks_write. }
  destruct (Hfold (write (RequestingAccess app) p)) as (Hs & Hi & Ha).
  split; [exact Hs|]. split; [exact Hi|].
  apply (asks_trans p (write (RequestingAccess app) p) _ [] []); [|exact Ha].
  now apply asks_write.
Qed.

(** The first loop: the reader is left alone, and under "Allow
    Selected" one question is put for every answer given. *)
Lemma decideEntries_effects app action decision entries d p :
  sameReader p (snd (decideEntries tr app action decision entries d p)) /\
  asks p (snd (decideEntries tr app action decision entries d p))
    (if Action_eqb action AllowSelected
     then map (AllowAccess app) (take (length (answers tr app entries p)) entries)
     else []).
Proof.
  revert d p. induction entries as [|e l IH]; intros d p.
  - simpl. split; [apply sameReader_refl|].
    destruct (Action_eqb action AllowSelected); apply asks_refl.
  - simpl. destruct (Action_eqb action AllowSelected) eqn:Ha.
    + pose proof (userAction_effects (AllowAccess app e)
        [tr "[Y]es"; tr "[N]o"] [tr "y|yes"; tr "n|no"] p) as (Hsame & _).
      pose proof (asks_userAction (AllowAccess app e)
        [tr "[Y]es"; tr "[N]o"] [tr "y|yes"; tr "n|no"] p) as Hask.
      fold (askEntry tr app e p) in Hsame, Hask.
      destruct (askEntry tr app e p) as [choice p1]. simpl in Hsame, Hask.
      destruct (choice =? -1).
      * simpl. now split.
      * specialize (IH (<[e := if negb (choice =? 0) then Undecided else decision]> d) p1).
        destruct IH as [Hs Hq]. simpl.
        split; [exact (sameReader_trans _ _ _ Hsame Hs)|].
        apply (asks_trans p p1 _ [AllowAccess app e] _ Hask Hq).
    + exact (IH (<[e := decision]> d) p).
Qed.

(** Each listed entry gets the decision of the action or [Undecided]. *)
Lemma decideEntries_listed app action decision entries d p e :
  In e entries ->
  fst (fst (decideEntries tr app action decision entries d p)) = true ->
  snd (fst (decideEntries tr app action decision entries d p)) !! e = Some decision \/
  snd (fst (decideEntries tr app action decision entries d p)) !! e = Some Undecided.
Proof.
  revert d p. induction entries as [|a l IH]; intros d p Hin; [easy|].
  simpl. destruct (in_dec Nat.eq_dec e l) as [Hl|Hl].
  - destruct (Action_eqb action AllowSelected).
    + destruct (askEntry tr app a p) as [choice p1].
      destruct (choice =? -1); [discriminate|]. now apply IH.
    + now apply IH.
  - destruct Hin as [->|?]; [|contradiction].
    destruct (Action_eqb action AllowSelected).
    + destruct (askEntry tr app e p) as [choice p1].
      destruct (choice =? -1); [discriminate|]. intros _.
      rewrite decideEntries_notIn by exact Hl. rewrite lookup_insert_eq.
      destruct (negb (choice =? 0)); auto.
    + intros _. rewrite decideEntries_notIn by exact Hl.
      rewrite lookup_insert_eq. now left.
Qed.

Lemma body_unfold client name entries decisions forFutureEntries p :
  requestEntriesUnlock tr client name entries decisions forFutureEntries p =
    let (result, q) :=
      requestEntriesUnlock_body tr client name entries decisions
        forFutureEntries (LineReader.pause p) in
    (result, LineReader.restore q).
Proof. reflexivity. Qed.

(** X7. The entries that are not in the list keep whatever [decisions]
    held for them, on every path through requestEntriesUnlock. *)
Theorem unlock_leaves_unlisted client name entries decisions forFutureEntries
    p e :
  ~ In e entries ->
  decisionsOf
    (requestEntriesUnlock tr client name entries decisions forFutureEntries p)
    !! e = decisions !! e.
Proof.
  intros Hnot. unfold requestEntriesUnlock, LineReader.LineReaderGuard,
    requestEntriesUnlock_body, decisionsOf.
  destruct (askAction tr _) as [choice p1].
  destruct (chooseAction tr choice) as [[[action actionStr] decision]|];
    [|reflexivity].
  pose proof (decideEntries_notIn tr client action decision entries decisions
                p1 e Hnot) as Hd.
  destruct (decideEntries tr client action decision entries decisions p1)
    as [[completed d1] p2]. simpl in Hd.
  destruct completed; [|exact Hd].
  destruct (askRemember tr actionStr client (warningFor tr action) p2)
    as [answer p3].
  destruct (answer =? 0).
  - destruct action; simpl; now rewrite rememberDecisions_notIn.
  - now destruct (answer =? 1).
Qed.

(** X8. "Allow Selected" and then "remember: yes": the entries granted
    get the durable [Allowed], the entries answered "no" stay
    [Undecided], and forFutureEntries stays [Undecided], so that no
    rule is set for entries outside the request. *)
Theorem unlock_selected_remembered client name entries decisions
    forFutureEntries p :
  let r := requestEntriesUnlock tr client name entries decisions
             forFutureEntries p in
  let first := askAction tr (announceUnlock client entries (LineReader.pause p)) in
  let asked := answers tr client entries (snd first) in
  let selected :=
    decideEntries tr client AllowSelected AllowedOnce entries decisions
      (snd first) in
  let remember :=
    askRemember tr (tr "Allow Selected") client (warningFor tr AllowSelected)
      (snd selected) in
  fst first = 2 -> ~ In (-1) asked -> fst remember = 0 ->
  returned r = true /\ forFutureEntriesOf r = Undecided /\
  forall i e, lastAt entries i e ->
    (asked !! i = Some 0 -> decisionsOf r !! e = Some Allowed) /\
    (asked !! i = Some 1 -> decisionsOf r !! e = Some Undecided).
Proof.
  intros r first asked selected remember Hfirst Hall Hrem.
  apply (decideEntries_completed tr client AllowedOnce entries decisions) in Hall.
  assert (Hsel : forall i e c, lastAt entries i e -> asked !! i = Some c ->
            c <> -1 ->
            snd (fst selected) !! e =
              Some (if c =? 0 then AllowedOnce else Undecided)).
  { intros i e c [Hi Hlast] Hc Hne.
    now apply (decideEntries_selected tr client AllowedOnce entries decisions
                 (snd first) i e c). }
  subst r.
  unfold requestEntriesUnlock, LineReader.LineReaderGuard,
    requestEntriesUnlock_body, returned, decisionsOf, forFutureEntriesOf.
  subst remember. fold first. destruct first as [choice p1].
  simpl in *. subst choice. simpl. fold selected. fold selected in Hall.
  destruct selected as [[completed d1] p2]. simpl in *. subst completed.
  destruct (askRemember tr (tr "Allow Selected") client
              (warningFor tr AllowSelected) p2) as [answer p3].
  simpl in Hrem. subst answer. simpl. repeat split.
  - intros Hyes. apply rememberDecisions_In.
    + destruct H as [Hi _]. apply list_elem_of_In.
      apply list_elem_of_lookup. now exists i.
    + unfold value. rewrite (Hsel i e 0 H Hyes) by lia. discriminate.
  - intros Hno. rewrite rememberDecisions_Undecided.
    + now rewrite (Hsel i e 1 H Hno) by lia.
    + unfold value. now rewrite (Hsel i e 1 H Hno) by lia.
Qed.

(** The body of requestEntriesUnlock leaves the reader object alone. *)
Lemma body_effects client name entries decisions forFutureEntries p :
  sameReader p
    (snd (requestEntriesUnlock_body tr client name entries decisions
            forFutureEntries p)).
Proof.
  unfold requestEntriesUnlock_body.
  destruct (announceUnlock_effects client entries p) as (Hs0 & _ & _).
  pose proof (userAction_effects ChooseAction
    [tr "[A]llow All"; tr "[D]eny All"; tr "Allow [S]elected"]
    [tr "a|allow|allow all"; tr "d|deny|deny all"; tr "s|selected|allow selected"]
    (announceUnlock client entries p)) as (Hs1 & _).
  fold (askAction tr (announceUnlock client entries p)) in Hs1.
  destruct (askAction tr (announceUnlock client entries p)) as [choice p1].
  simpl in Hs1. pose proof (sameReader_trans _ _ _ Hs0 Hs1) as Hs01.
  destruct (chooseAction tr choice) as [[[action actionStr] decision]|];
    [|exact Hs01].
  destruct (decideEntries_effects client action decision entries decisions p1)
    as [Hs2 _].
  destruct (decideEntries tr client action decision entries decisions p1)
    as [[completed d1] p2]. simpl in Hs2.
  pose proof (sameReader_trans _ _ _ Hs01 Hs2) as Hs02.
  destruct completed; [|exact Hs02].
  pose proof (userAction_effects (RememberAction actionStr client (warningFor tr action))
    [tr "[Y]es"; tr "[N]o"] [tr "y|yes"; tr "n|no"] p2) as (Hs3 & _).
  fold (askRemember tr actionStr client (warningFor tr action) p2) in Hs3.
  destruct (askRemember tr actionStr client (warningFor tr action) p2)
    as [answer p3]. simpl in Hs3.
  pose proof (sameReader_trans _ _ _ Hs02 Hs3) as Hs03.
  destruct (answer =? 0); [now destruct action|].
  now destruct (answer =? 1).
Qed.

(** Every path through the body only adds to the output. *)
Lemma body_output client name entries decisions forFutureEntries p :
  exists lines,
    stdout (snd (requestEntriesUnlock_body tr client name entries decisions
                   forFutureEntries p))
    = (stdout p ++ lines)%list.
Proof.
  unfold requestEntriesUnlock_body.
  destruct (announceUnlock_effects client entries p) as (_ & _ & A1).
  pose proof (asks_userAction ChooseAction
    [tr "[A]llow All"; tr "[D]eny All"; tr "Allow [S]elected"]
    [tr "a|allow|allow all"; tr "d|deny|deny all"; tr "s|selected|allow selected"]
    (announceUnlock client entries p)) as A2.
  fold (askAction tr (announceUnlock client entries p)) in A2.
  destruct (askAction tr (announceUnlock client entries p))
    as [choice p1]. simpl in A2.
  pose proof (asks_trans _ _ _ _ _ A1 A2) as A02.
  assert (forall q ms, asks p q ms -> exists l, stdout q = (stdout p ++ l)%list)
    as Hex by (intros q ms (l & Hl & _); now exists l).
  destruct (chooseAction tr choice) as [[[action actionStr] decision]|];
    [|exact (Hex _ _ A02)].
  destruct (decideEntries_effects client action decision entries decisions p1)
    as [_ A3].
  destruct (decideEntries tr client action decision entries decisions p1)
    as [[completed d1] p2]. simpl in A3.
  pose proof (asks_trans _ _ _ _ _ A02 A3) as A03.
  destruct completed; [|exact (Hex _ _ A03)].
  pose proof (asks_userAction (RememberAction actionStr client (warningFor tr action))
    [tr "[Y]es"; tr "[N]o"] [tr "y|yes"; tr "n|no"] p2) as A4.
  fold (askRemember tr actionStr client (warningFor tr action) p2) in A4.
  destruct (askRemember tr actionStr client (warningFor tr action) p2)
    as [answer p3]. simpl in A4.
  pose proof (asks_trans _ _ _ _ _ A03 A4) as A04.
  destruct (answer =? 0); [destruct action; exact (Hex _ _ A04)|].
  destruct (answer =? 1); exact (Hex _ _ A04).
Qed.

(** X9. On every return path of requestEntriesUnlock the guard has
    done its work, and the reader is not as it was before the call:
    [pause] takes no slot away and [restore] attaches one, so the
    notifier has one slot more than before. The readline handler is
    installed again (on the plain backend that flag is untouched);
    backend, prompt text, signals emitted and history are as before;
    and the output starts with the line of [pause] and ends with the
    session prompt. *)
Theorem unlock_leaves_slot client name entries decisions forFutureEntries p :
  let q := snd (requestEntriesUnlock tr client name entries decisions
                  forFutureEntries p) in
  connections q = S (connections p) /\
  rl_linefunc q = match backend p with
                  | Readline => true
                  | Simple => rl_linefunc p
                  end /\
  backend q = backend p /\ m_prompt q = m_prompt p /\
  emitted q = emitted p /\ history q = history p /\
  exists lines,
    stdout q = (stdout p ++ pauseLines p ++ lines ++ restoreLines p)%list.
Proof.
  intros q. subst q. rewrite body_unfold.
  pose proof (body_effects client name entries decisions forFutureEntries
                (LineReader.pause p)) as Hsame.
  destruct (body_output client name entries decisions forFutureEntries
              (LineReader.pause p)) as (lines & Hout).
  destruct (requestEntriesUnlock_body tr client name entries decisions
              forFutureEntries (LineReader.pause p)) as [result b].
  simpl in Hsame, Hout |- *.
  destruct (LineReaderProperties.guard_effects p b lines Hsame Hout)
    as (?&?&?&?&?&?&?).
  repeat split; auto. now exists lines.
Qed.

(** X10. A request that returns true never mixes its outcomes: there
    is one decision, a grant or a denial, once-only or durable, such
    that every listed entry holds that decision or [Undecided]; and
    forFutureEntries is either [Undecided] or that same decision, and
    then the decision is durable and every listed entry holds it. *)
Theorem unlock_decisions_uniform client name entries decisions
    forFutureEntries p :
  let r := requestEntriesUnlock tr client name entries decisions
             forFutureEntries p in
  returned r = true ->
  exists d,
    d <> Undecided /\
    (forall e, In e entries ->
       decisionsOf r !! e = Some d \/ decisionsOf r !! e = Some Undecided) /\
    (forFutureEntriesOf r = Undecided \/
     (forFutureEntriesOf r = d /\ isDurable d = true /\
      forall e, In e entries -> decisionsOf r !! e = Some d)).
Proof.
  intros r. subst r.
  unfold requestEntriesUnlock, LineReader.LineReaderGuard,
    requestEntriesUnlock_body, returned, decisionsOf, forFutureEntriesOf.
  destruct (askAction tr _) as [choice p1]. unfold chooseAction.
  assert (Hremember : forall dec d1 e,
    dec <> Undecided -> In e entries ->
    (d1 !! e = Some AllowedOnce \/ d1 !! e = Some Undecided) ->
    rememberDecisions dec entries d1 !! e = Some dec \/
    rememberDecisions dec entries d1 !! e = Some Undecided).
  { intros dec d1 e Hdec Hin [Hd|Hd].
    - left. apply rememberDecisions_In; [exact Hin|].
      unfold value. now rewrite Hd.
    - right. rewrite rememberDecisions_Undecided; [exact Hd|].
      unfold value. now rewrite Hd. }
  destruct (choice =? 0); [|destruct (choice =? 1); [|destruct (choice =? 2)]].
  - rewrite decideEntries_all by discriminate.
    destruct (askRemember tr _ _ _ p1) as [answer p3].
    destruct (answer =? 0); [|destruct (answer =? 1); [|discriminate]]; simpl.
    + intros _. exists Allowed. split; [discriminate|]. split.
      * intros e He. left. apply rememberDecisions_In; [exact He|].
        unfold value. now rewrite (assignAll_In AllowedOnce _ _ _ He).
      * right. repeat split. intros e He.
        apply rememberDecisions_In; [exact He|].
        unfold value. now rewrite (assignAll_In AllowedOnce _ _ _ He).
    + intros _. exists AllowedOnce. split; [discriminate|]. split; [|now left].
      intros e He. left. now apply assignAll_In.
  - rewrite decideEntries_all by discriminate.
    destruct (askRemember tr _ _ _ p1) as [answer p3].
    destruct (answer =? 0); [|destruct (answer =? 1); [|discriminate]]; simpl.
    + intros _. exists Denied. split; [discriminate|]. split.
      * intros e He. left. apply rememberDecisions_In; [exact He|].
        unfold value. now rewrite (assignAll_In DeniedOnce _ _ _ He).
      * right. repeat split. intros e He.
        apply rememberDecisions_In; [exact He|].
        unfold value. now rewrite (assignAll_In DeniedOnce _ _ _ He).
    + intros _. exists DeniedOnce. split; [discriminate|]. split; [|now left].
      intros e He. left. now apply assignAll_In.
  - pose proof (fun e He => decideEntries_listed client AllowSelected AllowedOnce
                              entries decisions p1 e He) as Hlisted.
    destruct (decideEntries tr client AllowSelected AllowedOnce entries
                decisions p1) as [[completed d1] p2]. simpl in Hlisted.
    destruct completed; [|discriminate].
    destruct (askRemember tr _ _ _ p2) as [answer p3].
    destruct (answer =? 0); [|destruct (answer =? 1); [|discriminate]]; simpl.
    + intros _. exists Allowed. split; [discriminate|]. split; [|now left].
      intros e He. apply Hremember; [discriminate|exact He|].
      exact (Hlisted e He eq_refl).
    + intros _. exists AllowedOnce. split; [discriminate|]. split; [|now left].
      intros e He. exact (Hlisted e He eq_refl).
  - discriminate.
Qed.

(** X11. What requestEntriesUnlock asks, and in which order: always
    the choice of the action first; under "Allow All" and "Deny All"
    only the remember question after it, whatever the number of
    entries; under "Allow Selected" one question for each entry, in
    the order of the list and up to the entry at which the input ends,
    and the remember question after the last entry. No question is put
    a second time. *)
Theorem unlock_questions client name entries decisions forFutureEntries p :
  let r := requestEntriesUnlock tr client name entries decisions
             forFutureEntries p in
  let first := askAction tr (announceUnlock client entries (LineReader.pause p)) in
  let asked := answers tr client entries (snd first) in
  asks p (snd r)
    (ChooseAction ::
     match chooseAction tr (fst first) with
     | None => []
     | Some (AllowSelected, actionStr, _) =>
         (map (AllowAccess client) (take (length asked) entries) ++
          if existsb (Z.eqb (-1)) asked then []
          else [RememberAction actionStr client (warningFor tr AllowSelected)])%list
     | Some (action, actionStr, _) =>
         [RememberAction actionStr client (warningFor tr action)]
     end).
Proof.
  intros r first asked. subst r asked. rewrite body_unfold.
  unfold requestEntriesUnlock_body.
  pose proof (asks_pause p) as A0.
  destruct (announceUnlock_effects client entries (LineReader.pause p))
    as (_ & _ & A1).
  pose proof (asks_userAction ChooseAction
    [tr "[A]llow All"; tr "[D]eny All"; tr "Allow [S]elected"]
    [tr "a|allow|allow all"; tr "d|deny|deny all"; tr "s|selected|allow selected"]
    (announceUnlock client entries (LineReader.pause p))) as A2.
  fold (askAction tr (announceUnlock client entries (LineReader.pause p))) in A2.
  fold first in A2 |- *. destruct first as [choice p1]. simpl in A2. simpl fst.
  simpl snd.
  pose proof (asks_trans _ _ _ _ _ (asks_trans _ _ _ _ _ A0 A1) A2) as A02.
  simpl in A02.
  assert (Hdone : forall q ms, asks p q (ChooseAction :: ms) ->
            asks p (LineReader.restore q) (ChooseAction :: ms)).
  { intros q ms Hq. pose proof (asks_trans _ _ _ _ _ Hq (asks_restore q)) as Ht.
    now rewrite app_nil_r in Ht. }
  destruct (chooseAction tr choice) as [[[action actionStr] decision]|] eqn:Hch;
    [|now apply Hdone].
  destruct (decideEntries_effects client action decision entries decisions p1)
    as [_ A3].
  pose proof (decideEntries_completed tr client decision entries decisions p1)
    as Hcompleted.
  destruct (decideEntries tr client action decision entries decisions p1)
    as [[completed d1] p2] eqn:Hde. simpl in A3.
  pose proof (asks_trans _ _ _ _ _ A02 A3) as A03. simpl in A03.
  assert (Hexists : existsb (Z.eqb (-1)) (answers tr client entries p1) = true <->
                    In (-1) (answers tr client entries p1)).
  { rewrite existsb_exists. split.
    - intros (x & Hx & Hxe). apply Z.eqb_eq in Hxe. now subst.
    - intros Hin. exists (-1). now split. }
  destruct completed.
  - pose proof (asks_userAction (RememberAction actionStr client (warningFor tr action))
      [tr "[Y]es"; tr "[N]o"] [tr "y|yes"; tr "n|no"] p2) as A4.
    fold (askRemember tr actionStr client (warningFor tr action) p2) in A4.
    destruct (askRemember tr actionStr client (warningFor tr action) p2)
      as [answer p3]. simpl in A4.
    pose proof (asks_trans _ _ _ _ _ A03 A4) as A04. simpl in A04.
    assert (asks p (LineReader.restore p3)
              (ChooseAction ::
               ((if Action_eqb action AllowSelected
                 then map (AllowAccess client)
                        (take (length (answers tr client entries p1)) entries)
                 else []) ++
                [RememberAction actionStr client (warningFor tr action)])%list))
      as Hfinal by now apply Hdone.
    assert (action = AllowSelected ->
            existsb (Z.eqb (-1)) (answers tr client entries p1) = false) as Hnone.
    { intros ->. rewrite Hde in Hcompleted. simpl in Hcompleted.
      apply Bool.not_true_is_false. intros Hex.
      apply Hexists in Hex. now destruct (proj1 Hcompleted eq_refl). }
    destruct (answer =? 0); [|destruct (answer =? 1)];
      destruct action; simpl in Hfinal |- *; rewrite ?Hnone by reflexivity;
      exact Hfinal.
  - assert (action = AllowSelected) as ->.
    { destruct action; try reflexivity;
        rewrite decideEntries_all in Hde by discriminate; discriminate. }
    rewrite Hde in Hcompleted. simpl in Hcompleted.
    assert (existsb (Z.eqb (-1)) (answers tr client entries p1) = true) as ->.
    { apply Bool.not_false_is_true. intros Hex.
      assert (~ In (-1) (answers tr client entries p1)) as Hno.
      { intros Hin. apply Hexists in Hin. congruence. }
      apply Hcompleted in Hno. discriminate. }
    simpl in A03. rewrite app_nil_r. now apply Hdone.
Qed.

End WithTranslation.

(** "Allow All" and "remember: yes" for entries 1 and 2 leave the
    denial stored for entry 7 as it is. *)
Lemma unlock_leaves_unlisted_witness :
  decisionsOf
    (requestEntriesUnlock tr client "db" [1; 2]%nat (<[7%nat := Denied]> ∅)
       Undecided (session (typed ["a"; "y"])))
    !! 7%nat = Some Denied.
Proof.
  rewrite (unlock_leaves_unlisted tr client "db" [1; 2]%nat (<[7%nat := Denied]> ∅)
             Undecided (session (typed ["a"; "y"])) 7%nat).
  - reflexivity.
  - intros [Heq|[Heq|[]]]; discriminate.
Defined.

(** "Allow Selected", yes for entry 1, no for entry 2, and
    "remember: yes". *)
Lemma unlock_selected_remembered_witness :
  let r := requestEntriesUnlock tr client "db" [1; 2]%nat ∅ Undecided
             (session (typed ["s"; "y"; "n"; "y"])) in
  returned r = true /\ forFutureEntriesOf r = Undecided /\
  decisionsOf r !! 1%nat = Some Allowed /\
  decisionsOf r !! 2%nat = Some Undecided.
Proof.
  intros r.
  assert (Hasked : ~ In (-1)
    (answers tr client [1; 2]%nat
       (snd (askAction tr
               (announceUnlock client [1; 2]%nat
                  (LineReader.pause (session (typed ["s"; "y"; "n"; "y"])))))))).
  { vm_compute. intros [Heq|[Heq|[]]]; discriminate. }
  destruct (unlock_selected_remembered tr client "db" [1; 2]%nat ∅ Undecided
              (session (typed ["s"; "y"; "n"; "y"])) eq_refl Hasked eq_refl)
    as (Hret & Hfut & Hall).
  assert (Hlast : forall (i : nat) (e : nat),
            [1; 2]%nat !! i = Some e ->
            [1; 2]%nat !! S i = None \/ i = 0%nat /\ e = 1%nat ->
            lastAt [1; 2]%nat i e).
  { intros i e Hi Hcase. split; [exact Hi|].
    intros j Hj. destruct Hcase as [Hnone|[-> ->]].
    - destruct i as [|[|i]]; destruct j as [|[|j]]; simpl in *;
        try lia; discriminate.
    - destruct j as [|[|j]]; simpl; try lia; discriminate. }
  split; [exact Hret|]. split; [exact Hfut|]. split.
  - apply (Hall 0%nat 1%nat); [|reflexivity].
    apply Hlast; [reflexivity|now right].
  - apply (Hall 1%nat 2%nat); [|reflexivity].
    apply Hlast; [reflexivity|now left].
Defined.

(** "Allow All" and "remember: yes": every entry and forFutureEntries
    hold the one decision. *)
Lemma unlock_decisions_uniform_witness :
  let r := requestEntriesUnlock tr client "db" [1; 2; 3]%nat ∅ Undecided
             (session (typed ["a"; "y"])) in
  exists d,
    d <> Undecided /\
    (forall e, In e [1; 2; 3]%nat ->
       decisionsOf r !! e = Some d \/ decisionsOf r !! e = Some Undecided) /\
    (forFutureEntriesOf r = Undecided \/
     (forFutureEntriesOf r = d /\ isDurable d = true /\
      forall e, In e [1; 2; 3]%nat -> decisionsOf r !! e = Some d)).
Proof.
  intros r.
  exact (unlock_decisions_uniform tr client "db" [1; 2; 3]%nat ∅ Undecided
           (session (typed ["a"; "y"])) eq_refl).
Defined.

End UnlockProperties.

(** ** Further properties of requestEntriesRemove *)

Module RemoveProperties.
Import QtText TextStream Prompt TextFacts PromptFacts ExampleStore.
Import RemoveTheorems PromptProperties UnlockProperties.

Lemma talks_refl p : talks p p [].
Proof. split; [apply sameReader_refl|apply asks_refl]. Qed.

Lemma talks_trans p q r ms ns : talks p q ms -> talks q r ns -> talks p r (ms ++ ns).
Proof.
  intros [Hs1 Ha1] [Hs2 Ha2].
  split; [exact (sameReader_trans _ _ _ Hs1 Hs2)|exact (asks_trans _ _ _ _ _ Ha1 Ha2)].
Qed.

Lemma talks_write l p : isQuestion l = false -> talks p (write l p) [].
Proof. intros H. split; [now repeat split|now apply asks_write]. Qed.

Lemma talks_userAction message actions matches p :
  talks p (snd (userAction message actions matches p)) [message].
Proof.
  split; [apply userAction_effects|apply asks_userAction].
Qed.

Lemma talks_writes {A} (f : A -> Line) (l : list A) p :
  (forall x, isQuestion (f x) = false) ->
  talks p (fold_left (fun p x => write (f x) p) l p) [].
Proof.
  intros Hf. revert p. induction l as [|x l IH]; intros p; [apply talks_refl|].
  simpl. apply (talks_trans p (write (f x) p) _ [] []); [now apply talks_write|apply IH].
Qed.

Lemma restore_pause_streams p :
  stdin (LineReader.restore (LineReader.pause p)) = stdin p /\
  stdout (LineReader.restore (LineReader.pause p))
    = (stdout p ++ pauseLines p ++ restoreLines p)%list.
Proof.
  destruct (LineReaderProperties.guard_effects p (LineReader.pause p) []
              (sameReader_refl _))
    as (_ & _ & _ & _ & _ & _ & Hout); [now rewrite app_nil_r|].
  split; [|exact Hout].
  unfold LineReader.restore, LineReader.pause, LineReader.disconnect.
  destruct (backend p) eqn:E; simpl; rewrite ?E; reflexivity.
Qed.

Lemma filter_filter {A} (f g : A -> bool) (l : list A) :
  List.filter f (List.filter g l) = List.filter (fun x => g x && f x) l.
Proof.
  induction l as [|x l IH]; [reflexivity|].
  simpl. destruct (g x); simpl; [destruct (f x)|]; now rewrite IH.
Qed.

(** X12. The reference set that is announced and rewritten is the list
    of the references with every member of the batch taken out; the
    other references keep their order and their repetitions. *)
Theorem ignoreCohort_outside (entries references : list Entry) :
  ignoreCohort entries references = outsideCohort entries references.
Proof.
  unfold ignoreCohort, outsideCohort. revert references.
  induction entries as [|a l IH]; intros references; simpl.
  - induction references as [|r rs IHr]; [reflexivity|]. simpl. now rewrite <- IHr.
  - rewrite IH. unfold removeAll. rewrite filter_filter.
    apply List.filter_ext. intros r. now rewrite Bool.negb_orb.
Qed.

Section WithStore.
Variable tr : string -> string.
Context {Store : Type} `{EntryStore Store}.

Lemma calls_process {A} (f : A -> StoreCall) (l : list A) (w : World Store) :
  process (fold_left (fun w x => call (f x) w) l w) = process w /\
  confirmDeleteItem (fold_left (fun w x => call (f x) w) l w) = confirmDeleteItem w.
Proof.
  revert w. induction l as [|x l IH]; intros w; [now split|].
  simpl. destruct (IH (call (f x) w)) as [-> ->]. now split.
Qed.

Lemma removeEntries_effects (permanent : bool) selected (w : World Store) :
  calls (removeEntries permanent selected w)
    = (calls w ++ map (removal permanent) selected)%list /\
  database (removeEntries permanent selected w)
    = fold_left (@applyCall Store _) (map (removal permanent) selected) (database w) /\
  process (removeEntries permanent selected w) = process w.
Proof.
  unfold removeEntries, removal. destruct permanent.
  - destruct (calls_fold DeleteEntry selected w) as [-> ->].
    now destruct (calls_process DeleteEntry selected w) as [-> _].
  - destruct (calls_fold RecycleEntry selected w) as [-> ->].
    now destruct (calls_process RecycleEntry selected w) as [-> _].
Qed.

Lemma askReferences_effects entry references (w : World Store) :
  let r := askReferences tr entry references w in
  calls (snd r) = calls w /\ database (snd r) = database w /\
  talks (process w) (process (snd r)) [ReplaceReferences].
Proof.
  unfold askReferences, onProcess.
  pose proof (talks_userAction ReplaceReferences
    [tr "[O]verwrite references with values";
     tr "[S]kip this entry"; tr "[D]elete anyway"]
    [tr "o|overwrite"; tr "s|skip"; tr "d|delete"]
    (write (EntryHasReferences entry (length references)) (process w))) as Ht.
  destruct (userAction _ _ _ _) as [c p1]. simpl in *.
  split; [reflexivity|]. split; [reflexivity|].
  apply (talks_trans (process w)
           (write (EntryHasReferences entry (length references)) (process w))
           p1 [] [ReplaceReferences]); [now apply talks_write|exact Ht].
Qed.

(** The loop body, whatever the answer: it makes rewrites only, at
    most one question, and none without the permanent flag. *)
Lemma resolveReferences_effects entries permanent entry (w : World Store) :
  let r := resolveReferences tr entries permanent entry w in
  exists rewrites (n : nat),
    calls (snd r) = (calls w ++ rewrites)%list /\
    database (snd r) = fold_left (@applyCall Store _) rewrites (database w) /\
    Forall (fun c => isRemoval c = false) rewrites /\
    (permanent = false -> rewrites = [] /\ n = 0%nat) /\
    (n <= 1)%nat /\
    talks (process w) (process (snd r)) (repeat ReplaceReferences n).
Proof.
  unfold resolveReferences.
  assert (Hnone : exists rewrites (n : nat),
    calls w = (calls w ++ rewrites)%list /\
    database w = fold_left (@applyCall Store _) rewrites (database w) /\
    Forall (fun c => isRemoval c = false) rewrites /\
    (permanent = false -> rewrites = [] /\ n = 0%nat) /\
    (n <= 1)%nat /\
    talks (process w) (process w) (repeat ReplaceReferences n)).
  { exists [], 0%nat. rewrite app_nil_r. conjs; auto. apply talks_refl. }
  destruct permanent; [|exact Hnone].
  destruct (isEmpty (referencesRecursive (database w) entry)); [exact Hnone|].
  simpl negb. cbv iota.
  destruct (askReferences_effects entry
              (ignoreCohort entries (referencesRecursive (database w) entry)) w)
    as (Hc & Hd & Ht).
  destruct (askReferences tr entry _ w) as [choice w1]. simpl in Hc, Hd, Ht.
  assert (Hquiet : exists rewrites (n : nat),
    calls w1 = (calls w ++ rewrites)%list /\
    database w1 = fold_left (@applyCall Store _) rewrites (database w) /\
    Forall (fun c => isRemoval c = false) rewrites /\
    (true = false -> rewrites = [] /\ n = 0%nat) /\
    (n <= 1)%nat /\
    talks (process w) (process w1) (repeat ReplaceReferences n)).
  { exists [], 1%nat. rewrite app_nil_r. conjs; auto; discriminate. }
  destruct (choice =? 0); [|destruct (choice =? 1); [|destruct (choice =? 2)]];
    try exact Hquiet.
  simpl.
  destruct (calls_fold (fun ref => ReplaceReferencesWithValues ref entry)
              (ignoreCohort entries (referencesRecursive (database w) entry)) w1)
    as [Hc' Hd'].
  destruct (calls_process (fun ref => ReplaceReferencesWithValues ref entry)
              (ignoreCohort entries (referencesRecursive (database w) entry)) w1)
    as [Hp' _].
  eexists _, 1%nat. rewrite Hc', Hd', Hp', Hc, Hd.
  conjs; auto; try discriminate.
  apply List.Forall_forall. intros c Hin.
  apply List.in_map_iff in Hin as (ref & <- & _). reflexivity.
Qed.

(** The first loop, whatever the answers. *)
Lemma selectEntries_effects entries permanent remaining selected (w : World Store) :
  let r := selectEntries tr entries permanent remaining selected w in
  exists rewrites (n : nat),
    calls (snd r) = (calls w ++ rewrites)%list /\
    database (snd r) = fold_left (@applyCall Store _) rewrites (database w) /\
    Forall (fun c => isRemoval c = false) rewrites /\
    (permanent = false -> rewrites = [] /\ n = 0%nat) /\
    (n <= length remaining)%nat /\
    talks (process w) (process (snd r)) (repeat ReplaceReferences n) /\
    match fst r with
    | Some selectedEntries =>
        exists added, selectedEntries = (selected ++ added)%list /\
                      sublist added remaining
    | None => True
    end.
Proof.
  revert selected w. induction remaining as [|e rest IH]; intros selected w.
  - exists [], 0%nat. simpl. rewrite app_nil_r. conjs; auto.
    + apply talks_refl.
    + exists []. rewrite app_nil_r. split; [reflexivity|constructor].
  - simpl.
    destruct (resolveReferences_effects entries permanent e w)
      as (rw1 & n1 & Hc1 & Hd1 & Hr1 & Hp1 & Hn1 & Ht1).
    destruct (resolveReferences tr entries permanent e w) as [res w1].
    simpl in Hc1, Hd1, Ht1.
    assert (Hstep : forall sel' (keep : bool),
      (let r := selectEntries tr entries permanent rest sel' w1 in
       exists rewrites (n : nat),
         calls (snd r) = (calls w1 ++ rewrites)%list /\
         database (snd r) = fold_left (@applyCall Store _) rewrites (database w1) /\
         Forall (fun c => isRemoval c = false) rewrites /\
         (permanent = false -> rewrites = [] /\ n = 0%nat) /\
         (n <= length rest)%nat /\
         talks (process w1) (process (snd r)) (repeat ReplaceReferences n) /\
         match fst r with
         | Some selectedEntries =>
             exists added, selectedEntries = (sel' ++ added)%list /\
                           sublist added rest
         | None => True
         end) ->
      sel' = (if keep then selected ++ [e] else selected)%list ->
      let r := selectEntries tr entries permanent rest sel' w1 in
      exists rewrites (n : nat),
        calls (snd r) = (calls w ++ rewrites)%list /\
        database (snd r) = fold_left (@applyCall Store _) rewrites (database w) /\
        Forall (fun c => isRemoval c = false) rewrites /\
        (permanent = false -> rewrites = [] /\ n = 0%nat) /\
        (n <= S (length rest))%nat /\
        talks (process w) (process (snd r)) (repeat ReplaceReferences n) /\
        match fst r with
        | Some selectedEntries =>
            exists added, selectedEntries = (selected ++ added)%list /\
                          sublist added (e :: rest)
        | None => True
        end).
    { intros sel' keep (rw2 & n2 & Hc2 & Hd2 & Hr2 & Hp2 & Hn2 & Ht2 & Hsel) Hsel'.
      exists (rw1 ++ rw2)%list, (n1 + n2)%nat.
      rewrite Hc2, Hd2, Hc1, Hd1, fold_left_app, <- List.app_assoc.
      conjs; auto.
      - now apply Forall_app.
      - intros Hperm. destruct (Hp1 Hperm) as [-> ->].
        now destruct (Hp2 Hperm) as [-> ->].
      - lia.
      - rewrite repeat_app. exact (talks_trans _ _ _ _ _ Ht1 Ht2).
      - destruct (fst (selectEntries tr entries permanent rest sel' w1));
          [|exact I].
        destruct Hsel as (added & -> & Hsub). subst sel'. destruct keep.
        + exists (e :: added). rewrite <- List.app_assoc.
          split; [reflexivity|now apply sublist_skip].
        + exists added. split; [reflexivity|now apply sublist_cons]. }
    destruct res.
    + apply (Hstep _ true (IH _ _) eq_refl).
    + apply (Hstep _ false (IH _ _) eq_refl).
    + exists rw1, n1. simpl. conjs; auto. lia.
Qed.

Lemma confirmDeleteEntries_effects client name entries permanent p :
  talks p (snd (confirmDeleteEntries tr client name entries permanent p))
    [ChooseAction].
Proof.
  unfold confirmDeleteEntries.
  pose proof (talks_write (RequestingRemoval client permanent name) p eq_refl) as T1.
  pose proof (talks_writes (fun entry => RemovalItem 1 entry) entries
                (write (RequestingRemoval client permanent name) p)
                (fun _ => eq_refl)) as T2.
  pose proof (talks_trans _ _ _ _ _ T1 T2) as T12.
  pose proof (talks_write Blank
                (fold_left (fun p entry => write (RemovalItem 1 entry) p) entries
                   (write (RequestingRemoval client permanent name) p)) eq_refl) as T3.
  pose proof (talks_trans _ _ _ _ _ T12 T3) as T13.
  pose proof (talks_userAction ChooseAction [tr "[A]llow"; tr "[D]eny"]
                [tr "a|allow"; tr "d|deny"]
                (write Blank
                   (fold_left (fun p entry => write (RemovalItem 1 entry) p) entries
                      (write (RequestingRemoval client permanent name) p)))) as T4.
  destruct (userAction _ _ _ _) as [choice p4]. simpl in T4 |- *.
  exact (talks_trans _ _ _ _ _ T13 T4).
Qed.

Lemma confirmation_effects client name entries permanent (w : World Store) :
  let r := confirmation tr client name entries permanent w in
  calls (snd r) = calls w /\ database (snd r) = database w /\
  talks (process w) (process (snd r))
    (if confirmDeleteItem w then [ChooseAction] else []).
Proof.
  unfold confirmation. destruct (confirmDeleteItem w).
  - unfold onProcess.
    pose proof (confirmDeleteEntries_effects client name entries permanent
                  (process w)) as Ht.
    destruct (confirmDeleteEntries tr client name entries permanent (process w))
      as [c p1]. simpl in *. conjs; auto.
  - simpl. conjs; auto. apply talks_refl.
Qed.

(** The body under the guard, on every path. *)
Lemma body_accounting client name entries permanent (w : World Store) :
  let r := requestEntriesRemove_body tr client name entries permanent w in
  exists rewrites removed (n : nat),
    calls (snd r)
      = (calls w ++ rewrites ++ map (removal permanent) removed)%list /\
    database (snd r)
      = fold_left (@applyCall Store _)
          (rewrites ++ map (removal permanent) removed)%list (database w) /\
    Forall (fun c => isRemoval c = false) rewrites /\
    (permanent = false -> rewrites = [] /\ n = 0%nat) /\
    fst r = length removed /\ sublist removed entries /\
    (n <= length entries)%nat /\
    talks (process w) (process (snd r))
      ((if negb (isEmpty entries) && confirmDeleteItem w
        then [ChooseAction] else []) ++ repeat ReplaceReferences n).
Proof.
  unfold requestEntriesRemove_body.
  assert (Hidle : forall w1,
    calls w1 = calls w -> database w1 = database w ->
    talks (process w) (process w1)
      (if negb (isEmpty entries) && confirmDeleteItem w
       then [ChooseAction] else []) ->
    exists rewrites removed (n : nat),
      calls w1 = (calls w ++ rewrites ++ map (removal permanent) removed)%list /\
      database w1
        = fold_left (@applyCall Store _)
            (rewrites ++ map (removal permanent) removed)%list (database w) /\
      Forall (fun c => isRemoval c = false) rewrites /\
      (permanent = false -> rewrites = [] /\ n = 0%nat) /\
      0%nat = length removed /\ sublist removed entries /\
      (n <= length entries)%nat /\
      talks (process w) (process w1)
        ((if negb (isEmpty entries) && confirmDeleteItem w
          then [ChooseAction] else []) ++ repeat ReplaceReferences n)).
  { intros w1 Hc Hd Ht. exists [], [], 0%nat. simpl.
    rewrite !app_nil_r, Hc, Hd. conjs; auto.
    - apply sublist_nil_l.
    - lia. }
  destruct (isEmpty entries) eqn:Hempty.
  { simpl. apply Hidle; auto. apply talks_refl. }
  destruct (confirmation_effects client name entries permanent w)
    as (Hgc & Hgd & Hgt).
  destruct (confirmation tr client name entries permanent w) as [confirmed w1].
  simpl in Hgc, Hgd, Hgt. simpl negb. cbv iota.
  destruct confirmed; [simpl; apply Hidle; auto|].
  destruct (selectEntries_effects entries permanent entries [] w1)
    as (rw & n & Hc & Hd & Hrw & Hperm & Hn & Ht & Hsel).
  destruct (selectEntries tr entries permanent entries [] w1) as [[sel|] w2];
    simpl in Hc, Hd, Ht, Hsel |- *.
  - destruct Hsel as (added & -> & Hsub). simpl.
    destruct (removeEntries_effects permanent added w2) as (Hrc & Hrd & Hrp).
    exists rw, added, n. rewrite Hrc, Hrd, Hrp, Hc, Hd, Hgc, Hgd.
    rewrite fold_left_app, <- List.app_assoc. conjs; auto.
    exact (talks_trans _ _ _ _ _ Hgt Ht).
  - exists rw, [], n. simpl. rewrite app_nil_r, Hc, Hd, Hgc, Hgd. conjs; auto.
    + apply sublist_nil_l.
    + exact (talks_trans _ _ _ _ _ Hgt Ht).
Qed.

Lemma remove_unfold client name entries permanent (w : World Store) :
  requestEntriesRemove tr client name entries permanent w =
    let (r, w') :=
      requestEntriesRemove_body tr client name entries permanent
        (set_process (LineReader.pause (process w)) w) in
    (r, set_process (LineReader.restore (process w')) w').
Proof. reflexivity. Qed.

(** X13. The store after a removal request, on every path: the calls
    made are rewrites of references followed by removals, none of the
    rewrites removes anything, moving to the recycle bin rewrites
    nothing, the entries removed are entries of the request, each at
    most as often as it is listed and in the order of the list, and
    the number returned is the number of removals made. *)
Theorem remove_accounting client name entries permanent (w : World Store) :
  let r := requestEntriesRemove tr client name entries permanent w in
  exists rewrites removed,
    calls (snd r)
      = (calls w ++ rewrites ++ map (removal permanent) removed)%list /\
    database (snd r)
      = fold_left (@applyCall Store _)
          (rewrites ++ map (removal permanent) removed)%list (database w) /\
    Forall (fun c => isRemoval c = false) rewrites /\
    (if permanent then True else rewrites = []) /\
    sublist removed entries /\
    fst r = length removed.
Proof.
  intros r. subst r. rewrite remove_unfold.
  destruct (body_accounting client name entries permanent
              (set_process (LineReader.pause (process w)) w))
    as (rw & removed & n & Hc & Hd & Hrw & Hperm & Hcount & Hsub & _).
  destruct (requestEntriesRemove_body tr client name entries permanent
              (set_process (LineReader.pause (process w)) w)) as [count w1].
  simpl in *. exists rw, removed. conjs; auto.
  destruct permanent; [exact I|]. now destruct (Hperm eq_refl).
Qed.

(** X14. What a removal request asks: the confirmation once, and only
    when the setting is on and the list is not empty; after it at most
    one question about references for each entry of the list, and
    none at all when the entries go to the recycle bin. *)
Theorem remove_questions client name entries permanent (w : World Store) :
  let r := requestEntriesRemove tr client name entries permanent w in
  exists n : nat,
    (n <= length entries)%nat /\
    (if permanent then True else n = 0%nat) /\
    asks (process w) (process (snd r))
      ((if negb (isEmpty entries) && confirmDeleteItem w
        then [ChooseAction] else []) ++ repeat ReplaceReferences n).
Proof.
  intros r. subst r. rewrite remove_unfold.
  destruct (body_accounting client name entries permanent
              (set_process (LineReader.pause (process w)) w))
    as (rw & removed & n & _ & _ & _ & Hperm & _ & _ & Hn & _ & Ht).
  destruct (requestEntriesRemove_body tr client name entries permanent
              (set_process (LineReader.pause (process w)) w)) as [count w1].
  simpl in *. exists n. conjs; auto.
  - destruct permanent; [exact I|]. now destruct (Hperm eq_refl).
  - pose proof (asks_trans _ _ _ _ _ (asks_pause (process w)) Ht) as A1.
    pose proof (asks_trans _ _ _ _ _ A1 (asks_restore (process w1))) as A2.
    simpl in A2. now rewrite app_nil_r in A2.
Qed.

(** X15. On every return path of requestEntriesRemove (empty list,
    confirmation, cancellation, completion) the guard has done its
    work, and the reader is not as it was before the call: [pause]
    takes no slot away and [restore] attaches one, so the notifier
    has one slot more than before. The readline handler is installed
    again (on the plain backend that flag is untouched); backend,
    prompt text, signals emitted and history are as before; and the
    output starts with the line of [pause] and ends with the session
    prompt. *)
Theorem remove_leaves_slot client name entries permanent (w : World Store) :
  let p := process w in
  let r := requestEntriesRemove tr client name entries permanent w in
  let q := process (snd r) in
  connections q = S (connections p) /\
  rl_linefunc q = match backend p with
                  | Readline => true
                  | Simple => rl_linefunc p
                  end /\
  backend q = backend p /\ m_prompt q = m_prompt p /\
  emitted q = emitted p /\ history q = history p /\
  exists lines,
    stdout q = (stdout p ++ pauseLines p ++ lines ++ restoreLines p)%list.
Proof.
  intros p r q. subst p r q. rewrite remove_unfold.
  destruct (body_accounting client name entries permanent
              (set_process (LineReader.pause (process w)) w))
    as (rw & removed & n & _ & _ & _ & _ & _ & _ & _ & Hs & lines & Hout & _).
  destruct (requestEntriesRemove_body tr client name entries permanent
              (set_process (LineReader.pause (process w)) w)) as [count w1].
  simpl in Hs, Hout |- *.
  destruct (LineReaderProperties.guard_effects (process w) (process w1) lines
              Hs Hout) as (?&?&?&?&?&?&?).
  conjs; auto. now exists lines.
Qed.

(** X16. With the confirmation switched off, a request to move the
    entries to the recycle bin goes through without a word: every
    entry of the list is recycled, in the order of the list, nothing is
    read from the terminal, and the only lines written are those of
    the guard. *)
Theorem remove_silent_recycle client name entries (w : World Store) :
  let p := process w in
  let r := requestEntriesRemove tr client name entries false w in
  confirmDeleteItem w = false ->
  fst r = length entries /\
  calls (snd r) = (calls w ++ map RecycleEntry entries)%list /\
  database (snd r)
    = fold_left (@applyCall Store _) (map RecycleEntry entries) (database w) /\
  stdin (process (snd r)) = stdin p /\
  stdout (process (snd r)) = (stdout p ++ pauseLines p ++ restoreLines p)%list.
Proof.
  intros p r Hoff. subst p r. rewrite remove_unfold.
  unfold requestEntriesRemove_body.
  destruct (restore_pause_streams (process w)) as [Hin Hout].
  destruct (isEmpty entries) eqn:Hempty.
  { destruct entries; [|discriminate]. simpl. rewrite app_nil_r. now conjs. }
  unfold confirmation. simpl confirmDeleteItem. rewrite Hoff.
  rewrite selectEntries_recycle. simpl app.
  destruct (removeEntries_effects false entries
              (set_process (LineReader.pause (process w)) w)) as (Hc & Hd & Hp).
  simpl. rewrite Hc, Hd, Hp. simpl. now conjs.
Qed.

(** The first loop when the input ends at one of its prompts. *)
Lemma selectEntries_cancelled entries remaining selected (w : World Store) :
  Exists (fun ev => answerAt tr entries true (fst ev) (snd ev) = Some (-1))
    (combine remaining (visits tr entries true remaining w)) ->
  exists w',
    selectEntries tr entries true remaining selected w = (None, w') /\
    calls w' = (calls w ++ overwritten tr entries remaining w)%list /\
    database w' =
      fold_left (@applyCall Store _) (overwritten tr entries remaining w) (database w).
Proof.
  unfold overwritten.
  revert selected w. induction remaining as [|e rest IH]; intros selected w Hex.
  - simpl in Hex. now apply List.Exists_nil in Hex.
  - change (visits tr entries true (e :: rest) w)
      with (w :: match resolveReferences tr entries true e w with
                 | (Cancelled, _) => []
                 | (_, w') => visits tr entries true rest w'
                 end) in *.
    change (selectEntries tr entries true (e :: rest) selected w)
      with (match resolveReferences tr entries true e w with
            | (Cancelled, w) => (None, w)
            | (Skipped, w) => selectEntries tr entries true rest selected w
            | (Marked, w) =>
                selectEntries tr entries true rest (selected ++ [e]) w
            end).
    cbn [combine] in *.
    apply List.Exists_cons in Hex. cbn [fst snd] in Hex.
    pose proof (resolveReferences_answer tr entries e w) as Hres.
    cbn [flat_map fst snd]. unfold overwriteCalls at 1 3.
    destruct (answerAt tr entries true e w) as [c|].
    + destruct Hres as (w1 & Hc & Hd & Hrange & Hres). rewrite Hres in *.
      assert (c = -1 \/ c = 0 \/ c = 1 \/ c = 2) as [->|[->|[->| ->]]]
        by (destruct Hrange as [->|Hr]; [now left|lia]);
        simpl in Hex |- *.
      * exists w1. rewrite List.combine_nil. simpl. rewrite app_nil_r. now conjs.
      * destruct Hex as [Hhead|Hex]; [discriminate|].
        destruct (IH (selected ++ [e])%list _ Hex) as (w' & Hsel & Hcalls & Hdb).
        exists w'. rewrite Hsel. split; [reflexivity|].
        destruct (calls_fold (fun ref => ReplaceReferencesWithValues ref e)
                    (ignoreCohort entries (referencesRecursive (database w) e)) w1)
          as [Hc' Hd'].
        rewrite Hcalls, Hdb, Hc', Hd', Hc, Hd.
        now rewrite <- List.app_assoc, fold_left_app.
      * destruct Hex as [Hhead|Hex]; [discriminate|].
        destruct (IH selected _ Hex) as (w' & Hsel & Hcalls & Hdb).
        exists w'. rewrite Hsel. split; [reflexivity|].
        now rewrite Hcalls, Hdb, Hc, Hd.
      * destruct Hex as [Hhead|Hex]; [discriminate|].
        destruct (IH (selected ++ [e])%list _ Hex) as (w' & Hsel & Hcalls & Hdb).
        exists w'. rewrite Hsel. split; [reflexivity|].
        now rewrite Hcalls, Hdb, Hc, Hd.
    + rewrite Hres in *. simpl in Hex |- *.
      destruct Hex as [Hhead|Hex]; [discriminate|].
      destruct (IH (selected ++ [e])%list _ Hex) as (w' & Hsel & Hcalls & Hdb).
      exists w'. rewrite Hsel. split; [reflexivity|].
      split; [exact Hcalls|exact Hdb].
Qed.

(** X17. A permanent removal that is cancelled at one of its reference
    prompts, because the input ends there, returns 0 and removes
    nothing; but it is not undone: the rewrites that the answers
    "Overwrite" before that prompt asked for have been made and stay
    in the store. *)
Theorem remove_cancelled_midway client name entries (w : World Store) :
  let paused := set_process (LineReader.pause (process w)) w in
  let gate := confirmation tr client name entries true paused in
  let run := combine entries (visits tr entries true entries (snd gate)) in
  let answer (ev : Entry * World Store) :=
    answerAt tr entries true (fst ev) (snd ev) in
  let overwrites :=
    flat_map (fun ev => overwriteCalls tr entries true (fst ev) (snd ev)) run in
  let r := requestEntriesRemove tr client name entries true w in
  fst gate = false ->
  Exists (fun ev => answer ev = Some (-1)) run ->
  fst r = 0%nat /\
  calls (snd r) = (calls w ++ overwrites)%list /\
  database (snd r) = fold_left (@applyCall Store _) overwrites (database w) /\
  Forall (fun c => isRemoval c = false) overwrites.
Proof.
  intros paused gate run answer overwrites r Hgate Hex.
  destruct (confirmation_calls tr client name entries true paused) as [Hgc Hgd].
  fold gate in Hgc, Hgd. simpl in Hgc, Hgd.
  assert (Hrw : Forall (fun c => isRemoval c = false) overwrites).
  { subst overwrites. apply List.Forall_forall. intros c Hin.
    apply List.in_flat_map in Hin as (ev & _ & Hin).
    unfold overwriteCalls in Hin.
    destruct (answerAt tr entries true (fst ev) (snd ev)) as [[| |]|];
      try contradiction.
    apply List.in_map_iff in Hin as (ref & <- & _). reflexivity. }
  subst r. rewrite remove_unfold. unfold requestEntriesRemove_body.
  fold paused. destruct (isEmpty entries) eqn:Hempty.
  { destruct entries; [|discriminate]. subst run. simpl in Hex.
    now apply List.Exists_nil in Hex. }
  fold gate. subst overwrites run answer.
  destruct gate as [confirmed w1]. simpl in Hgate, Hgc, Hgd, Hex, Hrw |- *.
  subst confirmed.
  destruct (selectEntries_cancelled entries entries [] w1 Hex)
    as (w2 & Hsel & Hcalls & Hdb).
  rewrite Hsel. simpl. unfold overwritten in Hcalls, Hdb.
  rewrite Hcalls, Hdb, Hgc, Hgd. now conjs.
Qed.

End WithStore.

(** Three entries go to the recycle bin with the confirmation off and
    nothing to read. *)
Lemma remove_silent_recycle_witness :
  let r := requestEntriesRemove tr client "db" [1; 2; 3]%nat false
             (world "" referenced false) in
  fst r = 3%nat /\
  calls (snd r) = [RecycleEntry 1; RecycleEntry 2; RecycleEntry 3] /\
  stdout (process (snd r)) = [ReaderPrompt "> "; ReaderNewline; ReaderPrompt "> "].
Proof.
  intros r.
  destruct (remove_silent_recycle tr client "db" [1; 2; 3]%nat
              (world "" referenced false) eq_refl) as (Hn & Hc & _ & _ & Ho).
  split; [exact Hn|]. split; [exact Hc|exact Ho].
Defined.

(** "Overwrite" for entry 1, and the input ends at the prompt of
    entry 2: nothing is deleted, and entry 9 has lost its reference to
    entry 1. *)
Lemma remove_cancelled_midway_witness :
  let r := requestEntriesRemove tr client "db" [1; 2; 3]%nat true
             (world (typed ["o"]) referenced false) in
  fst r = 0%nat /\
  calls (snd r) = [ReplaceReferencesWithValues 9 1] /\
  database (snd r) = [(1, []); (2, []); (3, []); (8, [2]); (9, [2])]%nat.
Proof.
  intros r.
  pose proof (remove_cancelled_midway tr client "db" [1; 2; 3]%nat
                (world (typed ["o"]) referenced false)) as H.
  cbv zeta in H. specialize (H eq_refl).
  assert (Hex : Exists
    (fun ev : nat * World Store =>
       answerAt tr [1; 2; 3]%nat true (fst ev) (snd ev) = Some (-1))
    (combine [1; 2; 3]%nat
       (visits tr [1; 2; 3]%nat true [1; 2; 3]%nat
          (snd (confirmation tr client "db" [1; 2; 3]%nat true
                  (set_process
                     (LineReader.pause
                        (process (world (typed ["o"]) referenced false)))
                     (world (typed ["o"]) referenced false))))))).
  { vm_compute. apply Exists_cons_tl, Exists_cons_hd. reflexivity. }
  destruct (H Hex) as (Hcount & Hcalls & Hdb & _).
  split; [exact Hcount|]. split; [exact Hcalls|exact Hdb].
Defined.

End RemoveProperties.

(** ** The prompt text and the handler of a command line *)

Module SessionProperties.
Import ExampleSession.

Lemma Database_eqb_refl d : Database_eqb d d = true.
Proof. unfold Database_eqb. now rewrite !String.eqb_refl. Qed.

(** X18. A database without a name is shown by its file name only when
    no integration is switched on: the emptiness test is made on the
    whole prompt, so that with the secret service or the SSH agent on
    the prompt of an unnamed database is the prompt of no database at
    all. *)
Theorem getPrompt_unnamed fdoBuilt sshBuilt (db : Database)
    (withFdoSecrets withSSHAgent : bool) :
  db_name db = "" ->
  getPrompt fdoBuilt sshBuilt (Some db) withFdoSecrets withSSHAgent =
    if withFdoSecrets || withSSHAgent
    then getPrompt fdoBuilt sshBuilt None withFdoSecrets withSSHAgent
    else db_fileName db +:+ "> ".
Proof.
  intros Hname. unfold getPrompt. rewrite Hname.
  destruct (withFdoSecrets || withSSHAgent); [|reflexivity].
  now destruct (fdoBuilt && withFdoSecrets), (sshBuilt && withSSHAgent).
Qed.

Lemma getPrompt_unnamed_witness :
  getPrompt true true (Some (exampleDatabase "a.kdbx")) true false = "[F] > " /\
  getPrompt true true (Some (exampleDatabase "a.kdbx")) false false = "a.kdbx> ".
Proof.
  split.
  - exact (getPrompt_unnamed true true (exampleDatabase "a.kdbx") true false eq_refl).
  - exact (getPrompt_unnamed true true (exampleDatabase "a.kdbx") false false eq_refl).
Defined.

Section WithSession.
Variable Env : Type.
Variables WITH_XC_FDOSECRETS WITH_XC_SSHAGENT : bool.
Variables withFdoSecrets withSSHAgent : bool.
Variable splitCommandString : string -> list string.
Variable getCommand : string -> option (Command Env).

Lemma handleLines_invariant (P : Session Env -> Prop) :
  (forall s command,
     P s ->
     P (onReadLine WITH_XC_FDOSECRETS WITH_XC_SSHAGENT withFdoSecrets
          withSSHAgent splitCommandString getCommand s command)) ->
  forall commands s,
    P s ->
    P (handleLines WITH_XC_FDOSECRETS WITH_XC_SSHAGENT withFdoSecrets
         withSSHAgent splitCommandString getCommand commands s).
Proof.
  intros Hstep commands. unfold handleLines.
  induction commands as [|c cs IH]; intros s Hs; [exact Hs|].
  simpl. apply IH, Hstep, Hs.
Qed.

Lemma onReadLine_prompt (s : Session Env) command :
  let s' := onReadLine WITH_XC_FDOSECRETS WITH_XC_SSHAGENT withFdoSecrets
              withSSHAgent splitCommandString getCommand s command in
  prompt s = getPrompt WITH_XC_FDOSECRETS WITH_XC_SSHAGENT
               (currentDatabase s) withFdoSecrets withSSHAgent ->
  prompt s' = getPrompt WITH_XC_FDOSECRETS WITH_XC_SSHAGENT
                (currentDatabase s') withFdoSecrets withSSHAgent.
Proof.
  intros s' Hs. subst s'. unfold onReadLine.
  destruct (splitCommandString command) as [|arg0 args]; [exact Hs|].
  destruct (getCommand arg0) as [cmd|]; [|exact Hs].
  destruct (String.eqb (cmd_name cmd) "quit" || String.eqb (cmd_name cmd) "exit");
    [exact Hs|reflexivity].
Qed.

(** X19. The prompt text the reader refers to is at all times the
    prompt of the database that is current: from the start of the
    session and after every line, whether it is empty, names no
    command, quits, or runs a command that changes the database. *)
Theorem session_prompt_current commands (db : Database) (world : Env) :
  let s := handleLines WITH_XC_FDOSECRETS WITH_XC_SSHAGENT withFdoSecrets
             withSSHAgent splitCommandString getCommand commands
             (enterInteractiveMode WITH_XC_FDOSECRETS WITH_XC_SSHAGENT
                withFdoSecrets withSSHAgent db world) in
  prompt s = getPrompt WITH_XC_FDOSECRETS WITH_XC_SSHAGENT
               (currentDatabase s) withFdoSecrets withSSHAgent.
Proof.
  intros s. subst s.
  apply (handleLines_invariant
           (fun s => prompt s = getPrompt WITH_XC_FDOSECRETS WITH_XC_SSHAGENT
                                  (currentDatabase s) withFdoSecrets withSSHAgent)).
  - intros s command. apply onReadLine_prompt.
  - unfold enterInteractiveMode.
    now destruct (WITH_XC_FDOSECRETS && withFdoSecrets),
                 (WITH_XC_SSHAGENT && withSSHAgent).
Qed.

Lemma heldAfter_app log h :
  heldAfter (log ++ [h]) = holdStep (heldAfter log) h.
Proof. unfold heldAfter. now rewrite fold_left_app. Qed.

Lemma unregisterCurrent_held (s : Session Env) :
  let s' := unregisterCurrent WITH_XC_FDOSECRETS WITH_XC_SSHAGENT
              withFdoSecrets withSSHAgent s in
  heldAfter (hooks s)
    = Some (holding (WITH_XC_FDOSECRETS && withFdoSecrets)
              (WITH_XC_SSHAGENT && withSSHAgent) (currentDatabase s)) ->
  heldAfter (hooks s') = Some (None, None) /\
  currentDatabase s' = currentDatabase s /\ env s' = env s.
Proof.
  unfold unregisterCurrent, holding.
  destruct (currentDatabase s) as [d|] eqn:Hd;
    destruct (WITH_XC_FDOSECRETS && withFdoSecrets),
             (WITH_XC_SSHAGENT && withSSHAgent);
    simpl; intros Hs; rewrite ?heldAfter_app, ?Hs; simpl;
    rewrite ?String.eqb_refl, ?Database_eqb_refl; simpl;
    rewrite ?Database_eqb_refl; auto.
Qed.

Lemma registerCurrent_held (s : Session Env) :
  let s' := registerCurrent WITH_XC_FDOSECRETS WITH_XC_SSHAGENT
              withFdoSecrets withSSHAgent s in
  heldAfter (hooks s) = Some (None, None) ->
  heldAfter (hooks s')
    = Some (holding (WITH_XC_FDOSECRETS && withFdoSecrets)
              (WITH_XC_SSHAGENT && withSSHAgent) (currentDatabase s')).
Proof.
  unfold registerCurrent, holding.
  destruct (currentDatabase s) as [d|] eqn:Hd;
    destruct (WITH_XC_FDOSECRETS && withFdoSecrets),
             (WITH_XC_SSHAGENT && withSSHAgent);
    simpl; intros Hs; rewrite ?heldAfter_app, ?Hs, ?Hd; simpl; auto.
Qed.

Lemma holding_nothing (fdo ssh : bool) : holding fdo ssh None = (None, None).
Proof. now destruct fdo, ssh. Qed.

(** X20. The integrations' view of which database is open stays that
    of the session. Provided that a command other than "open" and
    "close" hands back the database it was given and that "close"
    hands back none, then from the start of the session and after
    every line the calls made so far fit one another, no database is
    announced while another is held and none is taken away that is
    not held, and each integration that is switched on holds exactly
    the current database; and once the session is left nothing is
    held. *)
Theorem session_integrations_consistent commands (db : Database) (world : Env) :
  (forall name cmd args current w,
     getCommand name = Some cmd ->
     cmd_name cmd <> "open" -> cmd_name cmd <> "close" ->
     fst (cmd_execute cmd args current w) = current) ->
  (forall name cmd args current w,
     getCommand name = Some cmd -> cmd_name cmd = "close" ->
     fst (cmd_execute cmd args current w) = None) ->
  let s := handleLines WITH_XC_FDOSECRETS WITH_XC_SSHAGENT withFdoSecrets
             withSSHAgent splitCommandString getCommand commands
             (enterInteractiveMode WITH_XC_FDOSECRETS WITH_XC_SSHAGENT
                withFdoSecrets withSSHAgent db world) in
  heldAfter (hooks s)
    = Some (holding (WITH_XC_FDOSECRETS && withFdoSecrets)
              (WITH_XC_SSHAGENT && withSSHAgent) (currentDatabase s)) /\
  heldAfter
    (hooks (leaveInteractiveMode WITH_XC_FDOSECRETS WITH_XC_SSHAGENT
              withFdoSecrets withSSHAgent s))
    = Some (None, None).
Proof.
  intros Hother Hclose s.
  assert (Hs : heldAfter (hooks s)
               = Some (holding (WITH_XC_FDOSECRETS && withFdoSecrets)
                         (WITH_XC_SSHAGENT && withSSHAgent) (currentDatabase s))).
  { subst s.
    apply (handleLines_invariant
             (fun s => heldAfter (hooks s)
                       = Some (holding (WITH_XC_FDOSECRETS && withFdoSecrets)
                                 (WITH_XC_SSHAGENT && withSSHAgent)
                                 (currentDatabase s)))).
    - intros s command Hs. unfold onReadLine.
      destruct (splitCommandString command) as [|arg0 args]; [exact Hs|].
      destruct (getCommand arg0) as [cmd|] eqn:Hcmd; [|exact Hs].
      destruct (String.eqb (cmd_name cmd) "quit" || String.eqb (cmd_name cmd) "exit");
        [exact Hs|].
      destruct (unregisterCurrent_held s Hs) as (Hu & Hud & Hue).
      destruct (String.eqb (cmd_name cmd) "open") eqn:Hopen.
      + simpl orb. cbv iota. simpl currentDatabase. simpl hooks.
        apply (registerCurrent_held
                 (executed
                    (cmd_execute cmd (arg0 :: args)
                       (currentDatabase
                          (unregisterCurrent WITH_XC_FDOSECRETS WITH_XC_SSHAGENT
                             withFdoSecrets withSSHAgent s))
                       (env (unregisterCurrent WITH_XC_FDOSECRETS WITH_XC_SSHAGENT
                               withFdoSecrets withSSHAgent s)))
                    (unregisterCurrent WITH_XC_FDOSECRETS WITH_XC_SSHAGENT
                       withFdoSecrets withSSHAgent s))).
        exact Hu.
      + simpl orb. destruct (String.eqb (cmd_name cmd) "close") eqn:Hcl.
        * simpl. apply String.eqb_eq in Hcl.
          rewrite (Hclose arg0 cmd _ _ _ Hcmd Hcl), Hu.
          now rewrite holding_nothing.
        * simpl. apply String.eqb_neq in Hopen, Hcl.
          now rewrite (Hother arg0 cmd _ _ _ Hcmd Hopen Hcl).
    - unfold enterInteractiveMode, holding.
      destruct (WITH_XC_FDOSECRETS && withFdoSecrets),
               (WITH_XC_SSHAGENT && withSSHAgent); reflexivity. }
  split; [exact Hs|].
  unfold leaveInteractiveMode. now destruct (unregisterCurrent_held s Hs).
Qed.

End WithSession.

Lemma exampleGetCommand_name name cmd :
  exampleGetCommand name = Some cmd -> cmd = exampleCommand name.
Proof.
  unfold exampleGetCommand.
  destruct (existsb _ _); [now intros [= <-]|discriminate].
Qed.

Lemma example_other name cmd args (current : option Database) (w : nat) :
  exampleGetCommand name = Some cmd ->
  cmd_name cmd <> "open" -> cmd_name cmd <> "close" ->
  fst (cmd_execute cmd args current w) = current.
Proof.
  intros Hcmd. rewrite (exampleGetCommand_name _ _ Hcmd). simpl.
  intros Hopen Hclose.
  apply String.eqb_neq in Hopen, Hclose. now rewrite Hopen, Hclose.
Qed.

Lemma example_close name cmd args (current : option Database) (w : nat) :
  exampleGetCommand name = Some cmd -> cmd_name cmd = "close" ->
  fst (cmd_execute cmd args current w) = None.
Proof.
  intros Hcmd. rewrite (exampleGetCommand_name _ _ Hcmd). simpl.
  now intros ->.
Qed.

(** Both integrations on: a database is opened over the first one,
    listed, closed, and another one is opened; an unknown command and
    an empty line in between. *)
Lemma session_integrations_consistent_witness :
  let s := handleLines true true true true exampleSplit exampleGetCommand
             ["open a.kdbx"; "ls"; "frobnicate"; ""; "close"; "open b.kdbx"]
             (enterInteractiveMode true true true true
                (exampleDatabase "first.kdbx") 0%nat) in
  heldAfter (hooks s)
    = Some (Some "/home/user/b.kdbx", Some (exampleDatabase "b.kdbx")) /\
  heldAfter (hooks (leaveInteractiveMode true true true true s)) = Some (None, None).
Proof.
  intros s.
  destruct (session_integrations_consistent nat true true true true
              exampleSplit exampleGetCommand
              ["open a.kdbx"; "ls"; "frobnicate"; ""; "close"; "open b.kdbx"]
              (exampleDatabase "first.kdbx") 0%nat example_other example_close)
    as [Hheld Hleft].
  split; [exact Hheld|exact Hleft].
Defined.

End SessionProperties.
